(** * The post repository of the blog ([lib/post.ts])

    A shallow embedding of [lib/post.ts]: the four exported queries
    ([getPostSlugs], [getPostMeta], [getPostList], [getPost]) and their two
    helpers ([getPostContent], [parseContent]), run against a model of the
    part of Node's [fs] module they call.

    Promises are modelled by a state-and-exception monad over the file
    system: [await p] is a bind, a rejected promise is [Throw], and
    [Promise.all] runs every promise of its array before it settles.  The
    libraries the file imports (gray-matter, unified's plugins,
    [path.resolve], [process.cwd]) are section variables: each call is
    taken as a function of its arguments that returns or throws.
    gray-matter keeps a cache of the texts it has seen, so a text whose
    parse failed is not parsed again in the same process; the cache is not
    modelled, and no statement below depends on how a second parse of a
    text settles after a failed one.  Strings are
    sequences of bytes; the only pattern the file searches for is ASCII. *)

From Stdlib Require Import Ascii.
From stdpp Require Import base list strings gmap.

Set Default Proof Using "Type".

(** ** JavaScript strings *)

Module JsString.

(** [s.slice(n)] for [0 <= n]. *)
Fixpoint slice (n : nat) (s : string) : string :=
  match n, s with
  | O, _ => s
  | S _, EmptyString => EmptyString
  | S n', String _ s' => slice n' s'
  end.

(** [s.replace(pat, rep)] with a string pattern: only the first
    occurrence of [pat] is replaced; without an occurrence [s] is
    returned as it is.  ([rep] is taken literally: the source only passes
    the empty string, which has no [$] patterns.) *)
Fixpoint replace (pat rep s : string) : string :=
  if String.prefix pat s then rep +:+ slice (String.length pat) s
  else match s with
       | EmptyString => EmptyString
       | String c s' => String c (replace pat rep s')
       end.

(** [s.includes(pat)]. *)
Fixpoint includes (pat s : string) : bool :=
  if String.prefix pat s then true
  else match s with
       | EmptyString => false
       | String _ s' => includes pat s'
       end.

(** Truthiness of a string: only the empty string is falsy. *)
Definition truthy (s : string) : bool :=
  match s with
  | EmptyString => false
  | String _ _ => true
  end.

End JsString.

(** ** Errors and settled promises *)

(** The errors that can reach [lib/post.ts]: the [errno] codes of a failed
    [fs] call, the exception of the front-matter parser, the error of a
    failing unified stage, and the error Next's [notFound()] throws, which
    the framework recognises and turns into the 404 page. *)
Inductive error : Type :=
  | ENOENT
  | ENOTDIR
  | EISDIR
  | EACCES
  | YAMLException (reason : string)
  | ProcessorError (reason : string)
  | NEXT_NOT_FOUND.

Inductive outcome (A : Type) : Type :=
  | Return (a : A)
  | Throw (e : error).
Arguments Return {A} a.
Arguments Throw {A} e.

Definition of_sum {A} (r : error + A) : outcome A :=
  match r with inl e => Throw e | inr a => Return a end.

(** ** The file system *)

(** A file-system object: a readable file, a directory (its entries in the
    order the directory enumerates them), or an object the process may not
    open. *)
#[warnings="-register-all"]
Inductive node : Type :=
  | File (content : string)
  | Dir (entries : list (string * node))
  | Locked.

Fixpoint entry (name : string) (es : list (string * node)) : option node :=
  match es with
  | [] => None
  | (k, n) :: es' => if decide (k = name) then Some n else entry name es'
  end.

Definition child (n : node) (name : string) : error + node :=
  match n with
  | Dir es => match entry name es with Some n' => inr n' | None => inl ENOENT end
  | File _ => inl ENOTDIR
  | Locked => inl EACCES
  end.

(** The object at a canonical location (entry names from the root). *)
Fixpoint find (root : node) (loc : list string) : error + node :=
  match loc with
  | [] => inr root
  | c :: loc' =>
      match child root c with
      | inr n => find n loc'
      | inl e => inl e
      end
  end.

(** The components of a path: the pieces between slashes, empty pieces
    dropped. *)
Definition piece (acc : string) : list string :=
  match acc with EmptyString => [] | _ => [acc] end.

Fixpoint split_from (acc s : string) : list string :=
  match s with
  | EmptyString => piece acc
  | String c s' =>
      if decide (c = "/"%char) then piece acc ++ split_from "" s'
      else split_from (acc +:+ String c "") s'
  end.

Definition split_path (path : string) : list string := split_from "" path.

(** Path resolution as the kernel does it, one component at a time from the
    location [cur]: the object walked through must be a directory that can
    be opened, [.] stays, [..] goes to the parent (the root is its own
    parent), a name must be an entry.  The result is the canonical location
    of the object the path names. *)
Fixpoint realpath (root : node) (cur : list string) (p : list string)
  : error + list string :=
  match p with
  | [] => inr cur
  | c :: p' =>
      match find root cur with
      | inl e => inl e
      | inr (File _) => inl ENOTDIR
      | inr Locked => inl EACCES
      | inr (Dir es) =>
          if decide (c = ".") then realpath root cur p'
          else if decide (c = "..") then realpath root (removelast cur) p'
          else match entry c es with
               | Some _ => realpath root (cur ++ [c]) p'
               | None => inl ENOENT
               end
      end
  end.

Definition locate (root : node) (path : string) : error + list string :=
  realpath root [] (split_path path).

Definition open (root : node) (path : string) : error + node :=
  match locate root path with
  | inl e => inl e
  | inr loc => find root loc
  end.

(** Replacing (or creating) the object at a canonical location. *)
Fixpoint set_entry (name : string) (n : node) (es : list (string * node))
  : list (string * node) :=
  match es with
  | [] => [(name, n)]
  | (k, v) :: es' =>
      if decide (k = name) then (k, n) :: es' else (k, v) :: set_entry name n es'
  end.

Fixpoint put (root : node) (loc : list string) (new : node) : node :=
  match loc with
  | [] => new
  | c :: loc' =>
      match root with
      | Dir es =>
          match entry c es with
          | Some n => Dir (set_entry c (put n loc' new) es)
          | None => match loc' with
                    | [] => Dir (set_entry c new es)
                    | _ => root
                    end
          end
      | _ => root
      end
  end.

(** ** Promises over the file system *)

(** What the process did to the file system, in the order the calls were
    issued. *)
Inductive event : Type :=
  | ReadDir (path : string)
  | ReadFile (path : string)
  | WriteFile (path : string).

Record world : Type := World { disk : node; trace : list event }.

Definition log (ev : event) (w : world) : world :=
  World (disk w) (trace w ++ [ev]).

(** An asynchronous computation: from the world it starts in to how its
    promise settles and the world it leaves. *)
Definition M (A : Type) : Type := world -> outcome A * world.

Definition ret {A} (a : A) : M A := fun w => (Return a, w).

Definition throw {A} (e : error) : M A := fun w => (Throw e, w).

Definition bind {A B} (m : M A) (k : A -> M B) : M B :=
  fun w =>
    match m w with
    | (Return a, w') => k a w'
    | (Throw e, w') => (Throw e, w')
    end.

(** [p.catch(h)]. *)
Definition catch {A} (m : M A) (h : error -> M A) : M A :=
  fun w =>
    match m w with
    | (Return a, w') => (Return a, w')
    | (Throw e, w') => h e w'
    end.

(** A synchronous library call that may throw. *)
Definition call {A} (r : error + A) : M A := fun w => (of_sum r, w).

Declare Scope promise_scope.
Delimit Scope promise_scope with promise.
Notation "x <- m ;; k" := (bind m (fun x => k))
  (at level 100, m at next level, right associativity) : promise_scope.
Open Scope promise_scope.

(** How [Promise.all] settles given how its promises settled: with all the
    values in the array's order, or with a rejection.  (Which rejection
    wins when several promises reject depends on timing; the model takes
    the first in the array's order.) *)
Fixpoint settle_all {A} (rs : list (outcome A)) : outcome (list A) :=
  match rs with
  | [] => Return []
  | Return a :: rs' =>
      match settle_all rs' with
      | Return l => Return (a :: l)
      | Throw e => Throw e
      end
  | Throw e :: _ => Throw e
  end.

(** Running every promise of an array: each has been started, and does its
    reads, whether or not another one rejects. *)
Fixpoint run_all {A} (ps : list (M A)) (w : world) : list (outcome A) * world :=
  match ps with
  | [] => ([], w)
  | p :: ps' =>
      let '(r, w1) := p w in
      let '(rs, w2) := run_all ps' w1 in
      (r :: rs, w2)
  end.

Definition Promise_all {A} (ps : list (M A)) : M (list A) :=
  fun w => let '(rs, w') := run_all ps w in (settle_all rs, w').

(** ** Node's [fs] module *)

(** What opening a path for reading gives: the text of a file, the entry
    names of a directory. *)
Definition file_at (root : node) (path : string) : error + string :=
  match open root path with
  | inl e => inl e
  | inr (File text) => inr text
  | inr (Dir _) => inl EISDIR
  | inr Locked => inl EACCES
  end.

Definition names_at (root : node) (path : string) : error + list string :=
  match open root path with
  | inl e => inl e
  | inr (Dir es) => inr (map fst es)
  | inr (File _) => inl ENOTDIR
  | inr Locked => inl EACCES
  end.

Definition is_read (ev : event) : bool :=
  match ev with
  | ReadDir _ | ReadFile _ => true
  | WriteFile _ => false
  end.

(** A world reached from [w] by reads alone: the same disk, and a trace
    that grew by read calls only. *)
Definition reads_only (w w' : world) : Prop :=
  disk w' = disk w ∧
  ∃ evs, trace w' = trace w ++ evs ∧ Forall (λ ev, is_read ev = true) evs.

Module fs.

Module promises.

(** [fs.promises.readdir(path)]. *)
Definition readdir (path : string) : M (list string) :=
  fun w => (of_sum (names_at (disk w) path), log (ReadDir path) w).

(** [fs.promises.readFile(path, 'utf-8')]. *)
Definition readFile (path : string) : M string :=
  fun w => (of_sum (file_at (disk w) path), log (ReadFile path) w).

(** [fs.promises.writeFile(path, data)].  [lib/post.ts] imports the
    whole module and never calls it: it is here because it is what a
    write to the store would be. *)
Definition writeFile (path data : string) : M unit :=
  fun w =>
    let w' := log (WriteFile path) w in
    let p := split_path path in
    match realpath (disk w) [] (removelast p), last p with
    | inr dir, Some name =>
        match find (disk w) dir with
        | inr (Dir es) =>
            match entry name es with
            | Some (Dir _) => (Throw EISDIR, w')
            | Some Locked => (Throw EACCES, w')
            | _ => (Return tt,
                    World (put (disk w) (dir ++ [name]) (File data)) (trace w'))
            end
        | inr (File _) => (Throw ENOTDIR, w')
        | inr Locked => (Throw EACCES, w')
        | inl e => (Throw e, w')
        end
    | inl e, _ => (Throw e, w')
    | _, None => (Throw EISDIR, w')
    end.

End promises.

End fs.

(** ** What the imported libraries work on *)

(** A value of a front-matter block. *)
Inductive value : Type :=
  | VStr (s : string)
  | VNum (n : Z)
  | VBool (b : bool)
  | VNull.

(** A plain JavaScript object: its own properties by key. *)
Abbreviation object := (gmap string value).

(** What gray-matter's [matter(text)] returns: the parsed front-matter
    block and the text after it. *)
Record GrayMatterFile : Type := { data : object; content : string }.

(** [PageParams] of [lib/types]. *)
Record PageParams : Type := { slug : string }.

(** What [getPost] returns. *)
Record Post : Type := { postHTML : string; postMeta : object }.

(** What a unified stage receives and hands on: text, or a syntax tree. *)
Inductive vdoc (tree : Type) : Type :=
  | Text (s : string)
  | Tree (t : tree).
Arguments Text {tree} s.
Arguments Tree {tree} t.

(** A plugin is the stage it adds: a transform that may fail. *)
Definition Plugin (tree : Type) : Type := vdoc tree -> error + vdoc tree.

(** A processor is the stages attached to it, in the order of the [use]
    calls. *)
Definition Processor (tree : Type) : Type := list (Plugin tree).

Definition unified {tree} : Processor tree := [].

Definition use {tree} (p : Processor tree) (plugin : Plugin tree) : Processor tree :=
  p ++ [plugin].

Fixpoint run_stages {tree} (stages : list (Plugin tree)) (d : vdoc tree)
  : error + vdoc tree :=
  match stages with
  | [] => inr d
  | stage :: rest =>
      match stage d with
      | inl e => inl e
      | inr d' => run_stages rest d'
      end
  end.

Definition and_then {A B} (r : error + A) (k : A -> error + B) : error + B :=
  match r with
  | inl e => inl e
  | inr a => k a
  end.

(** [String(await p.process(text))]: the text goes through the stages; a
    failing stage fails the whole conversion, and so does a run that does
    not end in text. *)
Definition process {tree} (p : Processor tree) (text : string) : M string :=
  call (match run_stages p (Text text) with
        | inl e => inl e
        | inr (Text html) => inr html
        | inr (Tree _) => inl (ProcessorError "Cannot `process` without `compiler`")
        end).

(** ** [lib/post.ts] *)

Section Post.

Context {tree : Type}.

(** [process.cwd()] and [path.resolve]. *)
Variable process_cwd : string.
Variable path_resolve : string -> string -> string.

(** gray-matter's [matter]. *)
Variable matter : string -> error + GrayMatterFile.

(** The five plugins the file imports. *)
Variables remarkParse remarkFrontmatter remarkGfm remarkRehype rehypeStringify
  : Plugin tree.

(** Line 13. *)
Definition POSTS_FOLDER : string := path_resolve process_cwd "_posts".

(** The template literal of [getPostContent]. *)
Definition post_path (slug : string) : string :=
  POSTS_FOLDER +:+ "/" +:+ slug +:+ ".md".

(** Lines 25-26: a failed read is caught and becomes [null]. *)
Definition getPostContent (slug : string) : M (option string) :=
  catch (text <- fs.promises.readFile (post_path slug);; ret (Some text))
        (fun _ => ret None).

(** Lines 15-18: [content ? matter(content) : null]; nothing catches what
    [matter] throws. *)
Definition parseContent (slug : string) : M (option GrayMatterFile) :=
  content <- getPostContent slug;;
  match content with
  | Some text =>
      if JsString.truthy text
      then (parsed <- call (matter text);; ret (Some parsed))
      else ret None
  | None => ret None
  end.

(** Lines 20-23. *)
Definition getPostSlugs : M (list string) :=
  files <- fs.promises.readdir POSTS_FOLDER;;
  ret (map (fun fileName => JsString.replace ".md" "" fileName) files).

(** Lines 28-33.  [{ slug, ...parsed.data }]: the spread comes second, so
    a [slug] key of the front-matter block wins; [undefined] is [None]. *)
Definition getPostMeta (slug : string) : M (option object) :=
  parsed <- parseContent slug;;
  ret (match parsed with
       | Some parsed => Some (data parsed ∪ {[ "slug" := VStr slug ]})
       | None => None
       end).

(** Lines 35-38: [filter(post => post !== undefined)] is [omap id]. *)
Definition getPostList : M (list object) :=
  slugs <- getPostSlugs;;
  posts <- Promise_all (map getPostMeta slugs);;
  ret (omap id posts).

(** Lines 46-51. *)
Definition markdown_processor : Processor tree :=
  use (use (use (use (use unified remarkParse) remarkFrontmatter) remarkGfm)
         remarkRehype) rehypeStringify.

(** Lines 40-56: [notFound()] throws, so nothing after it runs. *)
Definition getPost (params : PageParams) : M Post :=
  parsed <- parseContent (slug params);;
  match parsed with
  | None => throw NEXT_NOT_FOUND
  | Some parsed =>
      html <- process markdown_processor (content parsed);;
      ret {| postHTML := html; postMeta := data parsed |}
  end.

End Post.

(** ** The pages: [app/[slug]/page.tsx] and the index page *)

(** [BlogPageProps] of [app/[slug]/page.tsx]. *)
Record BlogPageProps : Type := { params : PageParams }.

(** The object [generateMetadata] returns; a property the front-matter
    does not have reads as [undefined], here [None]. *)
Module OpenGraph.
Record t : Type := { title : option value; description : option value }.
End OpenGraph.

Record Metadata : Type :=
  { title : option value; description : option value; openGraph : OpenGraph.t }.

(** The React elements the two pages return: [<Post html meta />] and
    [<Posts posts />]. *)
Inductive element : Type :=
  | Post_element (html : string) (meta : object)
  | Posts_element (posts : list object).

Section Pages.

Context {tree : Type}.
Variable process_cwd : string.
Variable path_resolve : string -> string -> string.
Variable matter : string -> error + GrayMatterFile.
Variables remarkParse remarkFrontmatter remarkGfm remarkRehype rehypeStringify
  : Plugin tree.

(** [app/[slug]/page.tsx], lines 12-27. *)
Definition generateMetadata (props : BlogPageProps) : M Metadata :=
  postMeta <- getPostMeta process_cwd path_resolve matter (slug (params props));;
  match postMeta with
  | None => throw NEXT_NOT_FOUND
  | Some postMeta =>
      ret {| title := postMeta !! "title";
             description := postMeta !! "excerpt";
             openGraph := {| OpenGraph.title := postMeta !! "title";
                             OpenGraph.description := postMeta !! "excerpt" |} |}
  end.

(** [app/[slug]/page.tsx], lines 29-37. *)
Definition generateStaticParams : M (list BlogPageProps) :=
  slugs <- getPostSlugs process_cwd path_resolve;;
  ret (map (fun slug => {| params := {| slug := slug |} |}) slugs).

(** [app/[slug]/page.tsx], lines 39-43. *)
Definition BlogPage (props : BlogPageProps) : M element :=
  post <- getPost process_cwd path_resolve matter remarkParse remarkFrontmatter
            remarkGfm remarkRehype rehypeStringify (params props);;
  ret (Post_element (postHTML post) (postMeta post)).

(** The index page, lines 20-23 of its file. *)
Definition IndexPage : M element :=
  posts <- getPostList process_cwd path_resolve matter;;
  ret (Posts_element posts).

End Pages.

(** ** A sample installation

    The application runs in [/app]; the libraries are stood in for by
    functions that agree with them on the files below. *)

Definition sample_cwd : string := "/app".

(** [path.resolve] on a canonical absolute directory and a plain name. *)
Definition sample_resolve (from to : string) : string := from +:+ "/" +:+ to.

Definition hello_md : string :=
"---
title: Hello
---
there".

Definition renamed_md : string :=
"---
slug: other
---
moved".

Definition broken_md : string :=
"---
title: [oops
---
lost".

(** gray-matter on the three files, and on a text without a front-matter
    fence: no data, the whole text as content. *)
Definition sample_matter (text : string) : error + GrayMatterFile :=
  if decide (text = hello_md)
  then inr {| data := {[ "title" := VStr "Hello" ]}; content := "there" |}
  else if decide (text = renamed_md)
  then inr {| data := {[ "slug" := VStr "other" ]}; content := "moved" |}
  else if decide (text = broken_md)
  then inl (YAMLException "unexpected end of the stream within a flow collection")
  else inr {| data := ∅; content := text |}.

(** The stages on a one-line paragraph, with the line as the tree. *)
Definition sample_parse : Plugin string :=
  fun d => match d with
           | Text s => inr (Tree s)
           | Tree _ => inl (ProcessorError "expected text")
           end.

Definition sample_extension : Plugin string := fun d => inr d.

Definition sample_rehype : Plugin string :=
  fun d => match d with
           | Tree s => inr (Tree ("<p>" +:+ s +:+ "</p>"))
           | Text _ => inl (ProcessorError "expected a tree")
           end.

Definition sample_stringify : Plugin string :=
  fun d => match d with
           | Tree s => inr (Text s)
           | Text _ => inl (ProcessorError "expected a tree")
           end.

(** A disk with the store [/app/_posts] holding [posts], and a file next to
    the store. *)
Definition site (posts : list (string * node)) : world :=
  World (Dir [("app", Dir [("_posts", Dir posts);
                           ("secret.md", File "not a post")])])
        [].

(** A tidy store, and one with a broken file, one with an empty file, and
    one where a directory shares a post's name and a post renames itself. *)
Definition tidy_site : world :=
  site [("hello.md", File hello_md); ("locked.md", Locked)].

Definition broken_site : world :=
  site [("hello.md", File hello_md); ("broken.md", File broken_md)].

Definition empty_site : world :=
  site [("empty.md", File "")].

Definition cluttered_site : world :=
  site [("hello.md", File hello_md); ("hello", Dir []); ("drafts", Dir []);
        ("renamed.md", File renamed_md)].

(** A store of two posts, the second without a front-matter block, and an
    installation without a posts folder. *)
Definition two_posts_site : world :=
  site [("hello.md", File hello_md); ("plain.md", File "just text")].

Definition bare_site : world :=
  World (Dir [("app", Dir [("package.json", File "{}")])]) [].

(** * Properties *)

(** ** Strings *)

Lemma append_cons (x : ascii) (a b : string) :
  String x a +:+ b = String x (a +:+ b).
Proof. reflexivity. Qed.

Lemma append_nil (b : string) : "" +:+ b = b.
Proof. reflexivity. Qed.

Lemma prefix_nil (s : string) : String.prefix "" s = true.
Proof. by destruct s. Qed.

Lemma prefix_cons (x y : ascii) (p s : string) :
  String.prefix (String x p) (String y s) = bool_decide (x = y) && String.prefix p s.
Proof.
  cbn [String.prefix]. destruct (ascii_dec x y) as [->|Hne].
  - by rewrite bool_decide_eq_true_2.
  - by rewrite bool_decide_eq_false_2.
Qed.

Lemma append_assoc (a b c : string) : (a +:+ b) +:+ c = a +:+ (b +:+ c).
Proof.
  induction a as [|x a IH]; [done |].
  by rewrite !append_cons, IH.
Qed.

Lemma length_append (a b : string) :
  String.length (a +:+ b) = String.length a + String.length b.
Proof.
  induction a as [|x a IH]; [done |].
  rewrite append_cons. simpl. by rewrite IH.
Qed.

Lemma append_inj_r (a b c : string) : a +:+ c = b +:+ c → a = b.
Proof.
  intros H.
  assert (Hlen : String.length a = String.length b).
  { apply (f_equal String.length) in H.
    rewrite !length_append in H. lia. }
  revert b H Hlen. induction a as [|x a IH]; intros [|y b] H Hlen; simpl in *;
    try done.
  rewrite !append_cons in H. injection H as -> H.
  f_equal. apply IH; [done | lia].
Qed.

Lemma replace_absent (pat rep s : string) :
  JsString.includes pat s = false → JsString.replace pat rep s = s.
Proof.
  induction s as [|c s IH]; cbn [JsString.includes JsString.replace].
  - by destruct (String.prefix pat "").
  - destruct (String.prefix pat (String c s)); [done |].
    intros H. by rewrite IH.
Qed.

(** [.md] does not overlap itself, so in [name.md] with no [.md] inside
    [name] the first occurrence is the extension. *)
Lemma replace_md_extension (name : string) :
  JsString.includes ".md" name = false →
  JsString.replace ".md" "" (name +:+ ".md") = name.
Proof.
  induction name as [|c name IH]; [done |].
  intros H. cbn [JsString.includes] in H.
  destruct (String.prefix ".md" (String c name)) eqn:Hp; [done |].
  rewrite append_cons. cbn [JsString.replace].
  destruct (String.prefix ".md" (String c (name +:+ ".md"))) eqn:Hq.
  - exfalso. revert Hp Hq. clear.
    destruct name as [|c1 [|c2 name]];
      rewrite ?append_cons, ?append_nil, !prefix_cons;
      repeat case_bool_decide; simplify_eq; rewrite ?prefix_nil; done.
  - by rewrite IH.
Qed.

(** ** Paths *)

Lemma split_from_slash (acc a b : string) :
  split_from acc (a +:+ "/" +:+ b) = split_from acc a ++ split_from "" b.
Proof.
  revert acc. induction a as [|x a IH]; intros acc.
  - done.
  - rewrite append_cons. cbn [split_from].
    destruct (decide (x = "/"%char)); [| apply IH].
    by rewrite IH, (assoc_L (++)).
Qed.

Lemma split_from_plain (acc s : string) :
  JsString.includes "/" s = false → split_from acc s = piece (acc +:+ s).
Proof.
  revert acc. induction s as [|x s IH]; intros acc H.
  - cbn [split_from]. f_equal. clear. induction acc as [|y acc IH]; [done |].
    by rewrite append_cons, <- IH.
  - cbn [JsString.includes] in H. rewrite prefix_cons, prefix_nil in H.
    cbn [split_from]. case_bool_decide; [done |].
    rewrite decide_False by congruence.
    rewrite IH by done. by rewrite append_assoc.
Qed.

Lemma includes_slash_append (a b : string) :
  JsString.includes "/" (a +:+ b)
  = JsString.includes "/" a || JsString.includes "/" b.
Proof.
  induction a as [|x a IH].
  - rewrite append_nil. by change (JsString.includes "/" "") with false.
  - rewrite append_cons. cbn [JsString.includes].
    rewrite !prefix_cons, !prefix_nil, IH. by case_bool_decide.
Qed.

Lemma md_not_dots (name : string) :
  name +:+ ".md" ≠ "." ∧ name +:+ ".md" ≠ "..".
Proof.
  split; intros H; apply (f_equal String.length) in H;
    rewrite length_append in H; cbn in H; lia.
Qed.

Lemma split_path_parent (dir name : string) :
  JsString.includes "/" name = false →
  split_path (dir +:+ "/" +:+ ("../" +:+ name) +:+ ".md")
  = split_path dir ++ [".."; name +:+ ".md"].
Proof.
  intros Hname. unfold split_path.
  rewrite split_from_slash. f_equal.
  rewrite append_assoc.
  change ("../" +:+ name +:+ ".md") with (".." +:+ "/" +:+ name +:+ ".md").
  rewrite split_from_slash.
  rewrite (split_from_plain "" (name +:+ ".md"))
    by (by rewrite includes_slash_append, Hname).
  rewrite append_nil. by destruct name.
Qed.

Lemma find_app (root : node) (a b : list string) :
  find root (a ++ b) =
  match find root a with inr n => find n b | inl e => inl e end.
Proof.
  revert root. induction a as [|c a IH]; intros root; [done |].
  cbn [app find]. destruct (child root c); [done | apply IH].
Qed.

Lemma realpath_app (root : node) (cur p q : list string) :
  realpath root cur (p ++ q) =
  match realpath root cur p with
  | inr cur' => realpath root cur' q
  | inl e => inl e
  end.
Proof.
  revert cur. induction p as [|c p IH]; intros cur; [done |].
  cbn [app realpath].
  destruct (find root cur) as [|[| es |]]; try done.
  repeat case_decide; try apply IH.
  destruct (entry c es); [apply IH | done].
Qed.

(** ** Settled promises *)

Lemma settle_all_Return {A} (vs : list A) :
  settle_all (map Return vs) = Return vs.
Proof. induction vs as [|v vs IH]; [done |]. cbn. by rewrite IH. Qed.

Lemma settle_all_Throw {A} (rs : list (outcome A)) (e : error) :
  settle_all rs = Throw e → Throw e ∈ rs.
Proof.
  induction rs as [|[a|e'] rs IH]; cbn; [done | |].
  - destruct (settle_all rs); [done |].
    intros [= ->]. right. by apply IH.
  - intros [= ->]. left.
Qed.

Lemma settle_all_rejects {A} (rs : list (outcome A)) (e : error) :
  Throw e ∈ rs → ∃ e', settle_all rs = Throw e'.
Proof.
  induction rs as [|[a|e'] rs IH]; intros H.
  - by apply elem_of_nil in H.
  - apply elem_of_cons in H as [? | H]; [done |].
    destruct (IH H) as [e' He']. exists e'. cbn. by rewrite He'.
  - by exists e'.
Qed.

(** ** The queries, one await at a time *)

Section Queries.

Context {tree : Type}.
Variable process_cwd : string.
Variable path_resolve : string -> string -> string.
Variable matter : string -> error + GrayMatterFile.
Variables remarkParse remarkFrontmatter remarkGfm remarkRehype rehypeStringify
  : Plugin tree.

Local Abbreviation POSTS := (POSTS_FOLDER process_cwd path_resolve).
Local Abbreviation path_of := (post_path process_cwd path_resolve).
Local Abbreviation content_of := (getPostContent process_cwd path_resolve).
Local Abbreviation parse := (parseContent process_cwd path_resolve matter).
Local Abbreviation slugs_of := (getPostSlugs process_cwd path_resolve).
Local Abbreviation meta_of := (getPostMeta process_cwd path_resolve matter).
Local Abbreviation list_of := (getPostList process_cwd path_resolve matter).
Local Abbreviation pipeline :=
  (markdown_processor remarkParse remarkFrontmatter remarkGfm remarkRehype
     rehypeStringify).
Local Abbreviation post_of :=
  (getPost process_cwd path_resolve matter remarkParse remarkFrontmatter
     remarkGfm remarkRehype rehypeStringify).

Lemma readFile_run (path : string) (w : world) :
  fs.promises.readFile path w
  = (of_sum (file_at (disk w) path), log (ReadFile path) w).
Proof. done. Qed.

Lemma getPostContent_run (slug : string) (w : world) :
  content_of slug w
  = (Return (match file_at (disk w) (path_of slug) with
             | inr text => Some text
             | inl _ => None
             end),
     log (ReadFile (path_of slug)) w).
Proof.
  unfold getPostContent, catch, bind, ret. rewrite readFile_run.
  by destruct (file_at _ _).
Qed.

Lemma parseContent_run (slug : string) (w : world) :
  parse slug w
  = (match file_at (disk w) (path_of slug) with
     | inr text =>
         if JsString.truthy text
         then match matter text with
              | inr parsed => Return (Some parsed)
              | inl e => Throw e
              end
         else Return None
     | inl _ => Return None
     end,
     log (ReadFile (path_of slug)) w).
Proof.
  unfold parseContent, bind. rewrite getPostContent_run.
  destruct (file_at _ _) as [e|text]; [done |].
  destruct (JsString.truthy text); [| done].
  unfold call, ret. by destruct (matter text).
Qed.

Lemma getPostMeta_run (slug : string) (w : world) :
  meta_of slug w
  = (match file_at (disk w) (path_of slug) with
     | inr text =>
         if JsString.truthy text
         then match matter text with
              | inr parsed =>
                  Return (Some (data parsed ∪ {[ "slug" := VStr slug ]}))
              | inl e => Throw e
              end
         else Return None
     | inl _ => Return None
     end,
     log (ReadFile (path_of slug)) w).
Proof.
  unfold getPostMeta, bind. rewrite parseContent_run.
  destruct (file_at _ _) as [e|text]; [done |].
  destruct (JsString.truthy text); [| done].
  by destruct (matter text).
Qed.

(** How [getPostMeta] settles depends on the disk only. *)
Lemma getPostMeta_disk (slug : string) (w w' : world) :
  disk w = disk w' → fst (meta_of slug w) = fst (meta_of slug w').
Proof. intros H. by rewrite !getPostMeta_run, H. Qed.

Lemma getPostSlugs_run (w : world) :
  slugs_of w
  = (match names_at (disk w) POSTS with
     | inr files => Return (map (JsString.replace ".md" "") files)
     | inl e => Throw e
     end,
     log (ReadDir POSTS) w).
Proof.
  unfold getPostSlugs, bind, fs.promises.readdir, ret.
  by destruct (names_at _ _).
Qed.

Lemma run_all_getPostMeta (slugs : list string) (w : world) :
  run_all (map meta_of slugs) w
  = (map (λ s, fst (meta_of s w)) slugs,
     World (disk w) (trace w ++ map (λ s, ReadFile (path_of s)) slugs)).
Proof.
  revert w. induction slugs as [|s slugs IH]; intros w.
  - cbn. rewrite (right_id_L [] (++)). by destruct w.
  - cbn [map run_all].
    destruct (meta_of s w) as [r w1] eqn:Hrun.
    assert (Hw1 : w1 = log (ReadFile (path_of s)) w).
    { by rewrite getPostMeta_run in Hrun; injection Hrun as _ <-. }
    subst w1. rewrite IH. cbn [fst disk trace log]. f_equal.
    + f_equal. apply map_ext. intros s'. by apply getPostMeta_disk.
    + by rewrite <- (assoc_L (++)).
Qed.

Lemma getPostList_run (w : world) :
  list_of w
  = match names_at (disk w) POSTS with
    | inr files =>
        let slugs := map (JsString.replace ".md" "") files in
        (match settle_all (map (λ s, fst (meta_of s w)) slugs) with
         | Return posts => Return (omap id posts)
         | Throw e => Throw e
         end,
         World (disk w)
           (trace w ++ ReadDir POSTS :: map (λ s, ReadFile (path_of s)) slugs))
    | inl e => (Throw e, log (ReadDir POSTS) w)
    end.
Proof.
  unfold getPostList, bind. rewrite getPostSlugs_run.
  destruct (names_at _ _) as [e|files]; [done |].
  unfold Promise_all. rewrite run_all_getPostMeta. cbn [disk trace log].
  rewrite <- (assoc_L (++)). cbn [app].
  rewrite (map_ext _ (λ s, fst (meta_of s w)))
    by (intros s; by apply getPostMeta_disk).
  by destruct (settle_all _).
Qed.

Lemma process_run (p : Processor tree) (text : string) (w : world) :
  process p text w
  = (match run_stages p (Text text) with
     | inr (Text html) => Return html
     | inr (Tree _) => Throw (ProcessorError "Cannot `process` without `compiler`")
     | inl e => Throw e
     end, w).
Proof. unfold process, call. by destruct (run_stages _ _) as [|[]]. Qed.

Lemma getPost_run (params : PageParams) (w : world) :
  post_of params w
  = (match file_at (disk w) (path_of (slug params)) with
     | inr text =>
         if JsString.truthy text
         then match matter text with
              | inr parsed =>
                  match fst (process pipeline (content parsed) w) with
                  | Return html =>
                      Return {| postHTML := html; postMeta := data parsed |}
                  | Throw e => Throw e
                  end
              | inl e => Throw e
              end
         else Throw NEXT_NOT_FOUND
     | inl _ => Throw NEXT_NOT_FOUND
     end,
     log (ReadFile (path_of (slug params))) w).
Proof.
  unfold getPost, bind. rewrite parseContent_run.
  destruct (file_at _ _) as [e|text]; [done |].
  destruct (JsString.truthy text); [| done].
  destruct (matter text) as [e|parsed]; [done |].
  rewrite !process_run. cbn [fst].
  by destruct (run_stages _ _) as [|[]].
Qed.

Lemma truthy_nonempty (text : string) :
  text ≠ "" → JsString.truthy text = true.
Proof. by destruct text. Qed.

Lemma readFile_Return (path text : string) (w : world) :
  fst (fs.promises.readFile path w) = Return text
  ↔ file_at (disk w) path = inr text.
Proof.
  rewrite readFile_run. cbn [fst].
  destruct (file_at _ _); cbn; split; congruence.
Qed.

Lemma readFile_Throw (path : string) (e : error) (w : world) :
  fst (fs.promises.readFile path w) = Throw e
  ↔ file_at (disk w) path = inl e.
Proof.
  rewrite readFile_run. cbn [fst].
  destruct (file_at _ _); cbn; split; congruence.
Qed.

Lemma readdir_Return (path : string) (files : list string) (w : world) :
  fst (fs.promises.readdir path w) = Return files
  ↔ names_at (disk w) path = inr files.
Proof.
  unfold fs.promises.readdir. cbn [fst].
  destruct (names_at _ _); cbn; split; congruence.
Qed.

Lemma log_reads_only (ev : event) (w : world) :
  is_read ev = true → reads_only w (log ev w).
Proof.
  intros Hev. split; [done |]. exists [ev]. split; [done |].
  by apply Forall_singleton.
Qed.

(** ** The claims *)

(** C3 — When the read of the slug's file fails, whatever the reason (no
    such file, no permission, a directory in its place), [getPostMeta]
    resolves to [undefined]; it does not reject. *)
Theorem getPostMeta_read_failure_absent (slug : string) (w : world) (e : error) :
  fst (fs.promises.readFile (path_of slug) w) = Throw e →
  fst (meta_of slug w) = Return None.
Proof.
  intros H%readFile_Throw. by rewrite getPostMeta_run, H.
Qed.

(** C9 — When the front-matter block of the slug's file declares a key
    [slug], the object [getPostMeta] resolves to carries that declared
    value under [slug], not the argument. *)
Theorem getPostMeta_front_matter_slug_wins
    (slug text : string) (parsed : GrayMatterFile) (v : value) (w : world) :
  fst (fs.promises.readFile (path_of slug) w) = Return text →
  text ≠ "" →
  matter text = inr parsed →
  data parsed !! "slug" = Some v →
  ∃ meta : object,
    fst (meta_of slug w) = Return (Some meta) ∧ meta !! "slug" = Some v.
Proof.
  intros Hread%readFile_Return Htext Hparsed Hslug.
  exists (data parsed ∪ {[ "slug" := VStr slug ]}). split.
  - by rewrite getPostMeta_run, Hread, truthy_nonempty, Hparsed.
  - by apply lookup_union_Some_l.
Qed.

(** C8 — Each of the four exported queries leaves the disk as it found
    it, however it settles, and the only [fs] calls it makes are reads. *)
Theorem queries_only_read (params : PageParams) (w : world) :
  reads_only w (snd (slugs_of w)) ∧
  reads_only w (snd (meta_of (slug params) w)) ∧
  reads_only w (snd (list_of w)) ∧
  reads_only w (snd (post_of params w)).
Proof.
  split; [| split; [| split]].
  - rewrite getPostSlugs_run. by apply log_reads_only.
  - rewrite getPostMeta_run. by apply log_reads_only.
  - rewrite getPostList_run.
    destruct (names_at _ _) as [e|files]; [by apply log_reads_only |].
    split; [done |]. eexists. split; [done |].
    apply Forall_cons. split; [done |].
    by apply Forall_map, Forall_true.
  - rewrite getPost_run. by apply log_reads_only.
Qed.

(** C10 — The one [fs] call of [getPostContent] is a read of the path
    [POSTS_FOLDER + "/" + slug + ".md"], the slug put in as it is; so with
    the slug [../name] it reads [name.md] of the directory above the
    store, a file that is not inside the store. *)
Theorem getPostContent_path_unchecked (slug : string) (w : world) :
  content_of slug w
  = (Return (match file_at (disk w) (POSTS +:+ "/" +:+ slug +:+ ".md") with
             | inr text => Some text
             | inl _ => None
             end),
     log (ReadFile (POSTS +:+ "/" +:+ slug +:+ ".md")) w)
  ∧ ∀ (name text : string) (store : list string) (posts : list (string * node)),
      JsString.includes "/" name = false →
      locate (disk w) POSTS = inr store →
      store ≠ [] →
      find (disk w) store = inr (Dir posts) →
      find (disk w) (removelast store ++ [name +:+ ".md"]) = inr (File text) →
      locate (disk w) (POSTS +:+ "/" +:+ ("../" +:+ name) +:+ ".md")
      = inr (removelast store ++ [name +:+ ".md"])
      ∧ ¬ store `prefix_of` removelast store ++ [name +:+ ".md"]
      ∧ fst (content_of ("../" +:+ name) w) = Return (Some text).
Proof.
  split; [apply getPostContent_run |].
  intros name text store posts Hname Hstore Hne Hposts Hfile.
  assert (Hloc : locate (disk w) (POSTS +:+ "/" +:+ ("../" +:+ name) +:+ ".md")
                 = inr (removelast store ++ [name +:+ ".md"])).
  { unfold locate in *. rewrite split_path_parent, realpath_app, Hstore by done.
    destruct (md_not_dots name) as [Hdot Hdots].
    cbn [realpath]. rewrite Hposts, decide_False, decide_True by done.
    rewrite find_app in Hfile.
    destruct (find (disk w) (removelast store)) as [|[| es |]]; try done.
    rewrite !decide_False by done.
    cbn in Hfile. by destruct (entry _ es). }
  split; [done |]. split.
  - destruct (exists_last Hne) as (l & a & ->).
    rewrite removelast_last in *.
    intros Hpre%prefix_app_inv. destruct Hpre as [k Hk].
    injection Hk as Hk _. rewrite <- Hk in Hposts. congruence.
  - rewrite getPostContent_run. cbn [fst]. unfold post_path, file_at, open.
    by rewrite Hloc, Hfile.
Qed.

(** C7 — The converter [getPost] uses is the processor with exactly five
    stages, in this order: [remarkParse], [remarkFrontmatter], [remarkGfm],
    [remarkRehype], [rehypeStringify].  Converting a text hands it to the
    first stage and each stage's result to the next, and for a file that
    parses [getPost] resolves to the HTML the last stage serialised from
    the body, or rejects with the error of the stage that failed. *)
Theorem markdown_processor_stages
    (params : PageParams) (text : string) (parsed : GrayMatterFile) (w : world) :
  fst (fs.promises.readFile (path_of (slug params)) w) = Return text →
  text ≠ "" →
  matter text = inr parsed →
  let staged (body : string) :=
    and_then (and_then (and_then (and_then (remarkParse (Text body))
                                    remarkFrontmatter)
                          remarkGfm)
                remarkRehype)
      rehypeStringify in
  pipeline
  = [remarkParse; remarkFrontmatter; remarkGfm; remarkRehype; rehypeStringify]
  ∧ (∀ body,
       fst (process pipeline body w)
       = match staged body with
         | inr (Text html) => Return html
         | inr (Tree _) =>
             Throw (ProcessorError "Cannot `process` without `compiler`")
         | inl e => Throw e
         end)
  ∧ fst (post_of params w)
    = match staged (content parsed) with
      | inr (Text html) =>
          Return {| postHTML := html; postMeta := data parsed |}
      | inr (Tree _) =>
          Throw (ProcessorError "Cannot `process` without `compiler`")
      | inl e => Throw e
      end.
Proof.
  intros Hread%readFile_Return Htext Hparsed staged.
  assert (Hstaged : ∀ body, run_stages pipeline (Text body) = staged body).
  { intros body. unfold staged. cbn.
    destruct (remarkParse _) as [|d1]; [done |]. cbn.
    destruct (remarkFrontmatter _) as [|d2]; [done |]. cbn.
    destruct (remarkGfm _) as [|d3]; [done |]. cbn.
    destruct (remarkRehype _) as [|d4]; [done |]. cbn.
    by destruct (rehypeStringify _). }
  split; [done |]. split.
  - intros body. by rewrite process_run, Hstaged.
  - rewrite getPost_run, Hread, truthy_nonempty, Hparsed by done.
    rewrite process_run, Hstaged. cbn [fst].
    by destruct (staged (content parsed)) as [|[]].
Qed.

(** C5 (amended) — [getPost] settles in one of four ways.  It signals
    not-found, by the error of [notFound()], when the read of the slug's
    file fails or the file is empty.  It rejects with the parser's error
    when the front-matter does not parse, and with the stage's error when
    the conversion fails.  Otherwise it resolves to the front-matter data
    and the HTML the converter made of the body. *)
Theorem getPost_outcomes (params : PageParams) (w : world) :
  let read := fst (fs.promises.readFile (path_of (slug params)) w) in
  let settled := fst (post_of params w) in
  (((∃ e, read = Throw e) ∨ read = Return "") ∧ settled = Throw NEXT_NOT_FOUND)
  ∨ (∃ text e,
        read = Return text ∧ text ≠ "" ∧ matter text = inl e ∧
        settled = Throw e)
  ∨ (∃ text parsed e,
        read = Return text ∧ text ≠ "" ∧ matter text = inr parsed ∧
        fst (process pipeline (content parsed) w) = Throw e ∧
        settled = Throw e)
  ∨ (∃ text parsed html,
        read = Return text ∧ text ≠ "" ∧ matter text = inr parsed ∧
        fst (process pipeline (content parsed) w) = Return html ∧
        settled = Return {| postHTML := html; postMeta := data parsed |}).
Proof.
  cbn zeta. rewrite getPost_run, readFile_run. cbn [fst].
  destruct (file_at _ _) as [e|text]; cbn [of_sum].
  { left. split; [left; by exists e | done]. }
  destruct text as [|c text]; cbn [JsString.truthy].
  { left. split; [by right | done]. }
  right. destruct (matter _) as [e|parsed] eqn:Hparsed.
  { left. by exists (String c text), e. }
  right. destruct (fst (process _ _ _)) as [html|e] eqn:Hhtml.
  - right. by exists (String c text), parsed, html.
  - left. by exists (String c text), parsed, e.
Qed.

Ltac as_fmap :=
  repeat match goal with
         | |- context [map ?f ?l] => change (map f l) with (f <$> l)
         | H : context [map ?f ?l] |- _ => change (map f l) with (f <$> l) in H
         end.

Lemma getPostMeta_Some_inv (s : string) (post : object) (w : world) :
  fst (meta_of s w) = Return (Some post) →
  ∃ text parsed,
    fst (fs.promises.readFile (path_of s) w) = Return text ∧ text ≠ "" ∧
    matter text = inr parsed ∧ post = data parsed ∪ {[ "slug" := VStr s ]}.
Proof.
  rewrite getPostMeta_run, readFile_run. cbn [fst].
  destruct (file_at _ _) as [|text]; [done |].
  destruct text as [|c text]; [done |]. cbn [JsString.truthy of_sum].
  destruct (matter _) as [|parsed] eqn:Hparsed; [done |].
  intros [= <-]. by exists (String c text), parsed.
Qed.

Lemma getPostMeta_Throw_inv (s : string) (e : error) (w : world) :
  fst (meta_of s w) = Throw e →
  ∃ text,
    fst (fs.promises.readFile (path_of s) w) = Return text ∧ text ≠ "" ∧
    matter text = inl e.
Proof.
  rewrite getPostMeta_run, readFile_run. cbn [fst].
  destruct (file_at _ _) as [|text]; [done |].
  destruct text as [|c text]; [done |]. cbn [JsString.truthy of_sum].
  destruct (matter _) as [e'|] eqn:Hparsed; [| done].
  intros [= <-]. by exists (String c text).
Qed.

Lemma getPostList_Return
    (slugs : list string) (metas : list (option object)) (w : world) :
  fst (slugs_of w) = Return slugs →
  Forall2 (λ s m, fst (meta_of s w) = Return m) slugs metas →
  fst (list_of w) = Return (omap id metas).
Proof.
  rewrite getPostSlugs_run, getPostList_run.
  destruct (names_at _ _) as [|files]; [done |].
  cbn [fst]. intros [= <-] Hmetas. cbn zeta.
  assert (Hrs : map (λ s, fst (meta_of s w))
                  (map (JsString.replace ".md" "") files)
                = map Return metas).
  { induction Hmetas as [|s m ss ms Hm _ IH]; [done |].
    cbn [map]. by rewrite Hm, IH. }
  by rewrite Hrs, settle_all_Return.
Qed.

Lemma metas_exist (slugs : list string) (w : world) :
  (∀ s text, s ∈ slugs →
     fst (fs.promises.readFile (path_of s) w) = Return text → text ≠ "" →
     ∃ parsed, matter text = inr parsed) →
  ∃ metas,
    Forall2 (λ s m, fst (meta_of s w) = Return m ∧
                    ((∃ e, fst (fs.promises.readFile (path_of s) w) = Throw e) →
                     m = None))
      slugs metas.
Proof.
  induction slugs as [|s slugs IH]; intros Hparse; [by exists [] |].
  destruct IH as [metas Hmetas].
  { intros s' text Hin. apply Hparse. by right. }
  specialize (Hparse s).
  destruct (file_at (disk w) (path_of s)) as [e|text] eqn:Hfile.
  { exists (None :: metas). apply Forall2_cons. split; [| done].
    by rewrite getPostMeta_run, Hfile. }
  destruct text as [|c text].
  { exists (None :: metas). apply Forall2_cons. split; [| done].
    by rewrite getPostMeta_run, Hfile. }
  destruct (Hparse (String c text)) as [parsed Hparsed];
    [by left | by apply readFile_Return | done |].
  exists (Some (data parsed ∪ {[ "slug" := VStr s ]}) :: metas).
  apply Forall2_cons. split; [| done].
  rewrite getPostMeta_run, readFile_run, Hfile.
  cbn [JsString.truthy fst of_sum].
  rewrite Hparsed. split; [done |]. by intros [e [=]].
Qed.

(** C2 (amended) — [getPostSlugs] resolves to one string per directory
    entry, in the directory's order: an entry [name.md] gives [name], an
    entry without [.md] in its name gives its whole name.  When every
    entry is a [name.md], the result is exactly the [name]s, and has no
    duplicates. *)
Theorem getPostSlugs_one_per_entry (files : list string) (w : world) :
  fst (fs.promises.readdir POSTS w) = Return files →
  ∃ slugs,
    fst (slugs_of w) = Return slugs
    ∧ Forall2 (λ file s,
         (∀ name, file = name +:+ ".md" →
                  JsString.includes ".md" name = false → s = name)
         ∧ (JsString.includes ".md" file = false → s = file))
        files slugs
    ∧ ((∀ file, file ∈ files →
          ∃ name, file = name +:+ ".md" ∧ JsString.includes ".md" name = false) →
       (∀ s, s ∈ slugs ↔ s +:+ ".md" ∈ files) ∧ (NoDup files → NoDup slugs)).
Proof.
  intros Hdir%readdir_Return.
  exists (map (JsString.replace ".md" "") files).
  split; [by rewrite getPostSlugs_run, Hdir |]. as_fmap. split.
  - apply Forall2_fmap_r, Forall_Forall2_diag, Forall_forall.
    intros file _. split.
    + intros name -> Hname. by apply replace_md_extension.
    + apply replace_absent.
  - intros Htidy. split.
    + intros s. rewrite list_elem_of_fmap. split.
      * intros (file & -> & Hin).
        destruct (Htidy _ Hin) as (name & -> & Hname).
        by rewrite replace_md_extension.
      * intros Hin. destruct (Htidy _ Hin) as (name & Heq & Hname).
        apply append_inj_r in Heq as ->.
        exists (name +:+ ".md"). by rewrite replace_md_extension.
    + intros Hnd. apply NoDup_fmap_2_strong; [| done].
      intros f1 f2 H1 H2 Heq.
      destruct (Htidy _ H1) as (n1 & -> & ?), (Htidy _ H2) as (n2 & -> & ?).
      rewrite !replace_md_extension in Heq by done. by subst.
Qed.

(** C1 (amended) — During the listing, a failure to read one file is
    caught: the file counts as absent and the listing goes on.  A failure
    to parse a file's front-matter is not caught: [getPostList] rejects
    with the parser's error for one of the listed files. *)
Theorem getPostList_read_failure_absorbed_parse_failure_rejects
    (files : list string) (w : world) :
  fst (fs.promises.readdir POSTS w) = Return files →
  let slugs := map (JsString.replace ".md" "") files in
  ((∀ s text, s ∈ slugs →
      fst (fs.promises.readFile (path_of s) w) = Return text → text ≠ "" →
      ∃ parsed, matter text = inr parsed) →
   ∃ metas,
     Forall2 (λ s m, fst (meta_of s w) = Return m ∧
                     ((∃ e, fst (fs.promises.readFile (path_of s) w) = Throw e) →
                      m = None))
       slugs metas
     ∧ fst (list_of w) = Return (omap id metas))
  ∧ (∀ s text e, s ∈ slugs →
       fst (fs.promises.readFile (path_of s) w) = Return text → text ≠ "" →
       matter text = inl e →
       ∃ e' s' text',
         fst (list_of w) = Throw e' ∧ s' ∈ slugs ∧
         fst (fs.promises.readFile (path_of s') w) = Return text' ∧
         matter text' = inl e').
Proof.
  intros Hdir%readdir_Return slugs. split.
  - intros Hparse. destruct (metas_exist slugs w Hparse) as [metas Hmetas].
    exists metas. split; [done |].
    apply getPostList_Return with slugs.
    + by rewrite getPostSlugs_run, Hdir.
    + eapply Forall2_impl; [done |]. by intros s m [].
  - intros s text e Hs Hread%readFile_Return Htext Hfail.
    assert (Hthrow : Throw e ∈ map (λ s, fst (meta_of s w)) slugs).
    { as_fmap. apply list_elem_of_fmap. exists s. split; [| done].
      by rewrite getPostMeta_run, Hread, truthy_nonempty, Hfail. }
    destruct (settle_all_rejects _ _ Hthrow) as [e' He'].
    pose proof (settle_all_Throw _ _ He') as Hin. as_fmap.
    apply list_elem_of_fmap in Hin as (s' & Hs' & Hin').
    symmetry in Hs'.
    apply getPostMeta_Throw_inv in Hs' as (text' & Hread' & _ & Hfail').
    exists e', s', text'. split; [| done].
    rewrite getPostList_run, Hdir. cbn zeta. cbn [fst]. fold slugs.
    as_fmap. by rewrite He'.
Qed.

Lemma length_omap_filter_None {A} (ms : list (option A)) :
  length (omap id ms) = length ms - length (filter (λ m, m = None) ms).
Proof.
  induction ms as [|[a|] ms IH].
  - done.
  - rewrite filter_cons_False by done.
    pose proof (length_filter (λ m : option A, m = None) ms).
    unfold omap in *. simpl. lia.
  - rewrite filter_cons_True by done. unfold omap in *. simpl. lia.
Qed.

Lemma posts_come_from_slugs
    (slugs : list string) (metas : list (option object)) (w : world) :
  Forall2 (λ s m, fst (meta_of s w) = Return m) slugs metas →
  Forall (λ post, ∃ s, s ∈ slugs ∧ fst (meta_of s w) = Return (Some post))
    (omap id metas).
Proof.
  induction 1 as [|s m ss ms Hm _ IH]; [done |].
  assert (Forall (λ post, ∃ s', s' ∈ s :: ss ∧
                          fst (meta_of s' w) = Return (Some post))
            (omap id ms)) as Hrest.
  { eapply Forall_impl; [exact IH |].
    intros post (s' & Hin & Hs'). exists s'. split; [by right | done]. }
  destruct m as [post|]; [| done].
  cbn [omap id]. apply Forall_cons. split; [| done].
  exists s. split; [by left | done].
Qed.

Lemma post_slugs_sublist
    (slugs : list string) (metas : list (option object)) (w : world) :
  (∀ s text parsed, s ∈ slugs →
     fst (fs.promises.readFile (path_of s) w) = Return text → text ≠ "" →
     matter text = inr parsed → data parsed !! "slug" = None) →
  Forall2 (λ s m, fst (meta_of s w) = Return m) slugs metas →
  (λ post : object, post !! "slug") <$> omap id metas
    `sublist_of` (λ s, Some (VStr s)) <$> slugs.
Proof.
  intros Hnone Hmetas.
  induction Hmetas as [|s m ss ms Hm _ IH]; [done |].
  specialize (IH (λ s' text parsed Hin, Hnone s' text parsed (list_elem_of_further _ _ _ Hin))).
  destruct m as [post|]; rewrite (fmap_cons _ s ss).
  - change (omap id (Some post :: ms)) with (post :: omap id ms).
    rewrite fmap_cons.
    apply getPostMeta_Some_inv in Hm as (text & parsed & Hread & Htext & Hparsed & ->).
    rewrite lookup_union_r, lookup_singleton_eq.
    + by apply sublist_skip.
    + eapply Hnone; [by left | done..].
  - change (omap id (None :: ms)) with (omap id ms).
    by apply sublist_cons.
Qed.

(** C4 (amended) — [getPostList] resolves to what [getPostMeta] resolves
    to for each slug of [getPostSlugs], in that order, the absent ones
    left out; so its length is the number of slugs less the absent ones.
    Each element is the front-matter data of the file of one of those
    slugs, with the [slug] the front-matter declares or else that slug.
    When no front-matter declares a [slug] and the slugs have no
    duplicates, the elements' slugs have none either. *)
Theorem getPostList_maps_getPostMeta
    (slugs : list string) (metas : list (option object)) (w : world) :
  fst (slugs_of w) = Return slugs →
  Forall2 (λ s m, fst (meta_of s w) = Return m) slugs metas →
  let posts := omap id metas in
  fst (list_of w) = Return posts
  ∧ length posts = length slugs - length (filter (λ m, m = None) metas)
  ∧ Forall (λ post : object,
       ∃ s text parsed,
         s ∈ slugs ∧
         fst (fs.promises.readFile (path_of s) w) = Return text ∧
         matter text = inr parsed ∧
         post = data parsed ∪ {[ "slug" := VStr s ]} ∧
         post !! "slug" = Some (default (VStr s) (data parsed !! "slug")))
      posts
  ∧ ((∀ s text parsed, s ∈ slugs →
        fst (fs.promises.readFile (path_of s) w) = Return text → text ≠ "" →
        matter text = inr parsed → data parsed !! "slug" = None) →
     NoDup slugs →
     NoDup (map (λ post : object, post !! "slug") posts)).
Proof.
  intros Hslugs Hmetas posts. split; [| split; [| split]].
  - by apply getPostList_Return with slugs.
  - unfold posts. rewrite length_omap_filter_None.
    by rewrite (Forall2_length _ _ _ Hmetas).
  - eapply Forall_impl; [by apply posts_come_from_slugs |].
    intros post (s & Hin & Hs).
    apply getPostMeta_Some_inv in Hs as (text & parsed & Hread & _ & Hparsed & ->).
    exists s, text, parsed. repeat (split; [done |]).
    rewrite lookup_union. destruct (data parsed !! "slug") as [v|] eqn:Hv.
    + by rewrite union_Some_l.
    + by rewrite (left_id_L None union), lookup_singleton_eq.
  - intros Hnone Hnd. as_fmap.
    apply (sublist_NoDup _ ((λ s, Some (VStr s)) <$> slugs)).
    + apply NoDup_fmap_2; [| done]. by intros s1 s2 [=].
    + by apply post_slugs_sublist with w.
Qed.

(** ** Further properties of the repository and of the pages *)

Local Abbreviation metadata_of :=
  (generateMetadata process_cwd path_resolve matter).
Local Abbreviation static_params :=
  (generateStaticParams process_cwd path_resolve).
Local Abbreviation page_of :=
  (BlogPage process_cwd path_resolve matter remarkParse remarkFrontmatter
     remarkGfm remarkRehype rehypeStringify).
Local Abbreviation index_page := (IndexPage process_cwd path_resolve matter).

Lemma prefix_append (pat s t : string) :
  String.prefix pat s = true → String.prefix pat (s +:+ t) = true.
Proof.
  revert s. induction pat as [|x pat IH]; intros s; [by rewrite !prefix_nil |].
  destruct s as [|y s]; [done |].
  rewrite append_cons, !prefix_cons.
  intros [Hxy Hp]%andb_prop. rewrite Hxy. cbn [andb]. by apply IH.
Qed.

Lemma prefix_split (pat s : string) :
  String.prefix pat s = true →
  s = pat +:+ JsString.slice (String.length pat) s.
Proof.
  revert s. induction pat as [|x pat IH]; intros s; [done |].
  destruct s as [|y s]; [done |].
  rewrite prefix_cons. intros [Hxy Hp]%andb_prop.
  apply bool_decide_eq_true in Hxy as <-.
  rewrite append_cons. cbn [String.length JsString.slice]. f_equal. by apply IH.
Qed.

(** The text before the first occurrence of a pattern, and the text after
    it. *)
Lemma includes_first (pat s : string) :
  pat ≠ "" →
  JsString.includes pat s = true →
  ∃ a b, s = a +:+ pat +:+ b ∧ JsString.includes pat a = false.
Proof.
  destruct pat as [|x pat]; [done |]. intros _.
  induction s as [|c s IH]; cbn [JsString.includes]; [done |].
  destruct (String.prefix (String x pat) (String c s)) eqn:Hp.
  - intros _.
    exists "", (JsString.slice (String.length (String x pat)) (String c s)).
    split; [by apply prefix_split | done].
  - intros (a & b & -> & Ha)%IH.
    exists (String c a), b. split; [done |].
    cbn [JsString.includes].
    destruct (String.prefix (String x pat) (String c a)) eqn:Hq; [| done].
    apply (prefix_append _ _ (String x pat +:+ b)) in Hq.
    rewrite append_cons in Hq. congruence.
Qed.

(** [.md] does not overlap itself: the first occurrence in [a.md b] with no
    [.md] inside [a] is the one written. *)
Lemma replace_first_md (a b : string) :
  JsString.includes ".md" a = false →
  JsString.replace ".md" "" (a +:+ ".md" +:+ b) = a +:+ b.
Proof.
  induction a as [|c a IH].
  { intros _. rewrite !append_nil.
    change (".md" +:+ b) with (String "." (String "m" (String "d" b))).
    cbn [JsString.replace]. by rewrite !prefix_cons, prefix_nil. }
  intros H. cbn [JsString.includes] in H.
  destruct (String.prefix ".md" (String c a)) eqn:Hp; [done |].
  rewrite !(append_cons c a). cbn [JsString.replace].
  destruct (String.prefix ".md" (String c (a +:+ ".md" +:+ b))) eqn:Hq.
  - exfalso. revert Hp Hq. clear.
    destruct a as [|c1 [|c2 a]];
      rewrite ?append_cons, ?append_nil, !prefix_cons;
      repeat case_bool_decide; simplify_eq; rewrite ?prefix_nil; done.
  - by rewrite IH.
Qed.

Lemma split_path_child (dir name : string) :
  JsString.includes "/" name = false →
  split_path (dir +:+ "/" +:+ name +:+ ".md") = split_path dir ++ [name +:+ ".md"].
Proof.
  intros Hname. unfold split_path. rewrite split_from_slash. f_equal.
  rewrite split_from_plain by (by rewrite includes_slash_append, Hname).
  rewrite append_nil. by destruct name.
Qed.

(** Reading [dir/name.md] when [dir] is a directory: what the directory
    holds under [name.md] decides. *)
Lemma file_at_child
    (root : node) (dir name : string) (store : list string)
    (es : list (string * node)) :
  locate root dir = inr store →
  find root store = inr (Dir es) →
  JsString.includes "/" name = false →
  file_at root (dir +:+ "/" +:+ name +:+ ".md")
  = match entry (name +:+ ".md") es with
    | Some (File text) => inr text
    | Some (Dir _) => inl EISDIR
    | Some Locked => inl EACCES
    | None => inl ENOENT
    end
  ∧ (is_Some (entry (name +:+ ".md") es) →
     locate root (dir +:+ "/" +:+ name +:+ ".md") = inr (store ++ [name +:+ ".md"])).
Proof.
  intros Hdir Hstore Hname.
  destruct (md_not_dots name) as [Hdot Hdots].
  assert (Hloc : locate root (dir +:+ "/" +:+ name +:+ ".md")
                 = match entry (name +:+ ".md") es with
                   | Some _ => inr (store ++ [name +:+ ".md"])
                   | None => inl ENOENT
                   end).
  { unfold locate in *. rewrite split_path_child, realpath_app, Hdir by done.
    cbn [realpath]. rewrite Hstore, !decide_False by done.
    by destruct (entry _ es). }
  split.
  - unfold file_at, open. rewrite Hloc.
    destruct (entry _ es) as [n|] eqn:Hentry; [| done].
    rewrite find_app, Hstore. cbn [find child]. rewrite Hentry.
    by destruct n.
  - intros [n Hn]. by rewrite Hloc, Hn.
Qed.

Lemma entry_elem_of (file : string) (n : node) (es : list (string * node)) :
  NoDup (map fst es) → (file, n) ∈ es → entry file es = Some n.
Proof.
  induction es as [|[k v] es IH]; intros Hnd Hin.
  - by apply elem_of_nil in Hin.
  - cbn [map fst] in Hnd. apply NoDup_cons in Hnd as [Hk Hnd].
    cbn [entry]. apply elem_of_cons in Hin as [[= <- <-] | Hin].
    + by rewrite decide_True.
    + rewrite decide_False; [by apply IH |].
      intros ->. apply Hk. as_fmap.
      apply list_elem_of_fmap. by exists (file, n).
Qed.

Lemma readdir_Throw (path : string) (e : error) (w : world) :
  fst (fs.promises.readdir path w) = Throw e
  ↔ names_at (disk w) path = inl e.
Proof.
  unfold fs.promises.readdir. cbn [fst].
  destruct (names_at _ _); cbn; split; congruence.
Qed.

Lemma names_at_store
    (root : node) (dir : string) (store : list string) (es : list (string * node)) :
  locate root dir = inr store → find root store = inr (Dir es) →
  names_at root dir = inr (map fst es).
Proof. intros Hdir Hstore. unfold names_at, open. by rewrite Hdir, Hstore. Qed.

Lemma entry_Some_elem (file : string) (n : node) (es : list (string * node)) :
  entry file es = Some n → file ∈ map fst es.
Proof.
  induction es as [|[k v] es IH]; [done |]. cbn [entry map fst].
  case_decide as Hk; [subst; intros _; left | intros H; right; by apply IH].
Qed.

Lemma generateMetadata_run (props : BlogPageProps) (w : world) :
  metadata_of props w
  = (match fst (meta_of (slug (params props)) w) with
     | Return (Some postMeta) =>
         Return {| title := postMeta !! "title";
                   description := postMeta !! "excerpt";
                   openGraph := {| OpenGraph.title := postMeta !! "title";
                                   OpenGraph.description := postMeta !! "excerpt" |} |}
     | Return None => Throw NEXT_NOT_FOUND
     | Throw e => Throw e
     end,
     log (ReadFile (path_of (slug (params props)))) w).
Proof.
  unfold generateMetadata, bind.
  destruct (meta_of _ w) as [r w'] eqn:Hrun.
  assert (w' = log (ReadFile (path_of (slug (params props)))) w) as ->.
  { rewrite getPostMeta_run in Hrun. by injection Hrun. }
  cbn [fst]. by destruct r as [[postMeta|]|].
Qed.

Lemma BlogPage_run (props : BlogPageProps) (w : world) :
  page_of props w
  = (match fst (post_of (params props) w) with
     | Return post => Return (Post_element (postHTML post) (postMeta post))
     | Throw e => Throw e
     end,
     log (ReadFile (path_of (slug (params props)))) w).
Proof.
  unfold BlogPage, bind.
  destruct (post_of _ w) as [r w'] eqn:Hrun.
  assert (w' = log (ReadFile (path_of (slug (params props)))) w) as ->.
  { rewrite getPost_run in Hrun. by injection Hrun. }
  cbn [fst]. by destruct r.
Qed.

Lemma meta_lookup_other (fields : object) (s key : string) :
  key ≠ "slug" →
  (fields ∪ {[ "slug" := VStr s ]} : object) !! key = fields !! key.
Proof.
  intros Hkey. apply lookup_union_l. by apply lookup_singleton_ne.
Qed.

(** X1 — The directory listing is not guarded the way file reads are: when
    [readdir] of the posts folder fails, [getPostSlugs] and [getPostList]
    reject with that error, [getPostList] without reading any file, and so
    do [generateStaticParams] and the index page. *)
Theorem store_unreadable_rejects (e : error) (w : world) :
  fst (fs.promises.readdir POSTS w) = Throw e →
  fst (slugs_of w) = Throw e
  ∧ list_of w = (Throw e, log (ReadDir POSTS) w)
  ∧ fst (static_params w) = Throw e
  ∧ fst (index_page w) = Throw e.
Proof.
  intros Hdir%readdir_Throw.
  assert (Hslugs : slugs_of w = (Throw e, log (ReadDir POSTS) w))
    by (by rewrite getPostSlugs_run, Hdir).
  assert (Hlist : list_of w = (Throw e, log (ReadDir POSTS) w))
    by (by rewrite getPostList_run, Hdir).
  split; [by rewrite Hslugs |]. split; [done |]. split.
  - unfold generateStaticParams, bind. by rewrite Hslugs.
  - unfold IndexPage, bind. by rewrite Hlist.
Qed.


(** X3 — An entry [name.md] of the posts folder comes back from the
    listing as the slug [name], and [getPostContent] of that slug resolves
    the path back to this very entry and returns its text. *)
Theorem listed_post_is_read_back
    (store : list string) (es : list (string * node)) (name text : string)
    (w : world) :
  locate (disk w) POSTS = inr store →
  find (disk w) store = inr (Dir es) →
  entry (name +:+ ".md") es = Some (File text) →
  JsString.includes ".md" name = false →
  JsString.includes "/" name = false →
  (∃ slugs, fst (slugs_of w) = Return slugs ∧ name ∈ slugs)
  ∧ locate (disk w) (path_of name) = inr (store ++ [name +:+ ".md"])
  ∧ fst (content_of name w) = Return (Some text).
Proof.
  intros Hdir Hstore Hentry Hmd Hslash.
  destruct (file_at_child (disk w) POSTS name store es Hdir Hstore Hslash)
    as [Hfile Hloc].
  split; [| split].
  - exists (map (JsString.replace ".md" "") (map fst es)). split.
    + by rewrite getPostSlugs_run, (names_at_store _ _ store es).
    + as_fmap. apply list_elem_of_fmap. exists (name +:+ ".md").
      split; [by rewrite replace_md_extension |].
      by apply entry_Some_elem with (File text).
  - apply Hloc. by rewrite Hentry.
  - rewrite getPostContent_run. cbn [fst]. unfold post_path.
    by rewrite Hfile, Hentry.
Qed.

(** X4 — An entry of the posts folder without [.md] in its name (a
    sub-directory, a stray file) is listed by [getPostSlugs] as a slug equal
    to its whole name, at the entry's place.  Unless the folder also holds
    [name.md], the read for that slug fails with ENOENT and its metadata is
    absent, and [getPostList] leaves it out: the listing is what the entries
    before it give, followed by what the entries after it give. *)
Theorem stray_entry_is_left_out
    (store : list string) (es1 es2 : list (string * node)) (file : string)
    (n : node) (metas1 metas2 : list (option object)) (w : world) :
  locate (disk w) POSTS = inr store →
  find (disk w) store = inr (Dir (es1 ++ (file, n) :: es2)) →
  JsString.includes ".md" file = false →
  JsString.includes "/" file = false →
  entry (file +:+ ".md") (es1 ++ (file, n) :: es2) = None →
  Forall2 (λ e m, fst (meta_of (JsString.replace ".md" "" (fst e)) w) = Return m)
    es1 metas1 →
  Forall2 (λ e m, fst (meta_of (JsString.replace ".md" "" (fst e)) w) = Return m)
    es2 metas2 →
  fst (slugs_of w)
  = Return (map (JsString.replace ".md" "") (map fst es1)
            ++ file :: map (JsString.replace ".md" "") (map fst es2))
  ∧ fst (fs.promises.readFile (path_of file) w) = Throw ENOENT
  ∧ fst (meta_of file w) = Return None
  ∧ fst (list_of w) = Return (omap id metas1 ++ omap id metas2).
Proof.
  intros Hdir Hstore Hmd Hslash Hentry Hmetas1 Hmetas2.
  destruct (file_at_child (disk w) POSTS file store _ Hdir Hstore Hslash)
    as [Hfile _].
  rewrite Hentry in Hfile.
  assert (Hslugs : fst (slugs_of w)
            = Return (map (JsString.replace ".md" "") (map fst es1)
                      ++ file :: map (JsString.replace ".md" "") (map fst es2))).
  { rewrite getPostSlugs_run, (names_at_store _ _ store _ Hdir Hstore).
    cbn [fst]. rewrite !map_app. cbn [map fst].
    by rewrite (replace_absent _ _ file). }
  assert (Hmeta : fst (meta_of file w) = Return None).
  { rewrite getPostMeta_run. unfold post_path. by rewrite Hfile. }
  split; [done |]. split; [by apply readFile_Throw |]. split; [done |].
  replace (omap id metas1 ++ omap id metas2)
    with (omap id (metas1 ++ None :: metas2))
    by (by rewrite omap_app).
  eapply getPostList_Return; [exact Hslugs |].
  apply Forall2_app; [| apply Forall2_cons; split; [done |]].
  - as_fmap. by apply Forall2_fmap_l, Forall2_fmap_l.
  - as_fmap. by apply Forall2_fmap_l, Forall2_fmap_l.
Qed.

(** X5 — [getPostList] makes one [readdir] call and then one [readFile]
    call per directory entry, in the directory's order, at the path built
    from the entry's slug; it does so however the calls settle. *)
Theorem getPostList_reads_every_entry (files : list string) (w : world) :
  fst (fs.promises.readdir POSTS w) = Return files →
  snd (list_of w)
  = World (disk w)
      (trace w ++
       ReadDir POSTS ::
       map (λ file,
              ReadFile (POSTS +:+ "/" +:+ JsString.replace ".md" "" file +:+ ".md"))
         files).
Proof.
  intros Hdir%readdir_Return. rewrite getPostList_run, Hdir. cbn zeta.
  cbn [snd]. by rewrite map_map.
Qed.

(** X6 — What [getPostSlugs] does to each entry: a name without [.md] is
    kept whole, and any other name loses its first [.md] and nothing else,
    wherever in the name it stands. *)
Theorem getPostSlugs_removes_first_md (files : list string) (w : world) :
  fst (fs.promises.readdir POSTS w) = Return files →
  ∃ slugs,
    fst (slugs_of w) = Return slugs
    ∧ Forall2 (λ file s,
         (JsString.includes ".md" file = false ∧ s = file)
         ∨ (∃ a b, file = a +:+ ".md" +:+ b ∧
                   JsString.includes ".md" a = false ∧ s = a +:+ b))
        files slugs.
Proof.
  intros Hdir%readdir_Return.
  exists (map (JsString.replace ".md" "") files).
  split; [by rewrite getPostSlugs_run, Hdir |]. as_fmap.
  apply Forall2_fmap_r, Forall_Forall2_diag, Forall_forall.
  intros file _. destruct (JsString.includes ".md" file) eqn:Hmd.
  - right. destruct (includes_first ".md" file) as (a & b & -> & Ha); [done.. |].
    exists a, b. by rewrite replace_first_md.
  - left. by rewrite replace_absent.
Qed.

Lemma omap_id_Some {A} (xs : list A) : omap id (map Some xs) = xs.
Proof.
  induction xs as [|x xs IH]; [done |].
  change (omap id (map Some (x :: xs))) with (x :: omap id (map Some xs)).
  by rewrite IH.
Qed.

(** X7 — When the posts folder holds nothing but readable, non-empty
    [name.md] files, with no further [.md] and no slash in [name], whose
    front-matter parses, [getPostList] resolves to exactly one element per
    entry, in the directory's order: the entry's front-matter data with
    [slug] set to [name] unless declared. *)
Theorem getPostList_tidy_store
    (store : list string) (es : list (string * node)) (w : world) :
  locate (disk w) POSTS = inr store →
  find (disk w) store = inr (Dir es) →
  NoDup (map fst es) →
  Forall (λ e, ∃ name text parsed,
            e = (name +:+ ".md", File text) ∧
            JsString.includes ".md" name = false ∧
            JsString.includes "/" name = false ∧
            text ≠ "" ∧ matter text = inr parsed) es →
  ∃ posts,
    fst (list_of w) = Return posts
    ∧ Forall2 (λ e post, ∃ name text parsed,
                 e = (name +:+ ".md", File text) ∧ matter text = inr parsed ∧
                 post = data parsed ∪ {[ "slug" := VStr name ]})
        es posts.
Proof.
  intros Hdir Hstore Hnd Htidy.
  assert (Hsub : ∀ sub, sub ⊆ es →
            ∃ posts,
              Forall2 (λ s m, fst (meta_of s w) = Return m)
                (map (JsString.replace ".md" "") (map fst sub)) (map Some posts)
              ∧ Forall2 (λ e post, ∃ name text parsed,
                           e = (name +:+ ".md", File text) ∧
                           matter text = inr parsed ∧
                           post = data parsed ∪ {[ "slug" := VStr name ]})
                  sub posts).
  { induction sub as [|e sub IH]; intros Hin; [by exists [] |].
    destruct IH as (posts & Hmetas & Hposts).
    { intros x Hx. apply Hin. by right. }
    assert (He : e ∈ es) by (apply Hin; by left).
    pose proof (proj1 (Forall_forall _ _) Htidy e He)
      as (name & text & parsed & -> & Hmd & Hslash & Htext & Hparsed).
    exists ((data parsed ∪ {[ "slug" := VStr name ]}) :: posts). split.
    - cbn [map fst]. apply Forall2_cons. split; [| done].
      rewrite replace_md_extension, getPostMeta_run by done.
      destruct (file_at_child (disk w) POSTS name store es Hdir Hstore Hslash)
        as [Hfile _].
      unfold post_path. rewrite Hfile, (entry_elem_of _ (File text)) by done.
      by rewrite truthy_nonempty, Hparsed.
    - apply Forall2_cons. split; [| done]. by exists name, text, parsed. }
  destruct (Hsub es) as (posts & Hmetas & Hposts); [done |].
  exists posts. split; [| done].
  rewrite <- (omap_id_Some posts).
  apply getPostList_Return with (map (JsString.replace ".md" "") (map fst es));
    [| done].
  by rewrite getPostSlugs_run, (names_at_store _ _ store es).
Qed.

(** X8 — [generateMetadata] settles in one of three ways: it signals
    not-found when the slug's file cannot be read or is empty; it rejects
    with the parser's error when the front-matter does not parse; otherwise
    it resolves with [title] and [description] the front-matter's [title]
    and [excerpt] ([undefined] where the block has none), and the same two
    values under [openGraph]. *)
Theorem generateMetadata_outcomes (props : BlogPageProps) (w : world) :
  let read := fst (fs.promises.readFile (path_of (slug (params props))) w) in
  let settled := fst (metadata_of props w) in
  (((∃ e, read = Throw e) ∨ read = Return "") ∧ settled = Throw NEXT_NOT_FOUND)
  ∨ (∃ text e,
        read = Return text ∧ text ≠ "" ∧ matter text = inl e ∧
        settled = Throw e)
  ∨ (∃ text parsed md,
        read = Return text ∧ text ≠ "" ∧ matter text = inr parsed ∧
        settled = Return md ∧
        title md = data parsed !! "title" ∧
        description md = data parsed !! "excerpt" ∧
        OpenGraph.title (openGraph md) = title md ∧
        OpenGraph.description (openGraph md) = description md).
Proof.
  cbn zeta. rewrite generateMetadata_run, getPostMeta_run, readFile_run.
  cbn [fst].
  destruct (file_at _ _) as [e|text]; cbn [of_sum].
  { left. split; [left; by exists e | done]. }
  destruct text as [|c text]; cbn [JsString.truthy].
  { left. split; [by right | done]. }
  right. destruct (matter _) as [e|parsed] eqn:Hparsed.
  { left. by exists (String c text), e. }
  right. eexists (String c text), parsed, _.
  repeat (split; [done |]). cbn [title description openGraph].
  by rewrite !meta_lookup_other.
Qed.

(** X9 — The metadata and the page of one request agree on not-found:
    when the slug's file cannot be read or is empty, [generateMetadata] and
    [BlogPage] both signal not-found, whichever of the two runs first. *)
Theorem metadata_and_page_agree_on_not_found
    (props : BlogPageProps) (w : world) :
  (∃ e, fst (fs.promises.readFile (path_of (slug (params props))) w) = Throw e)
  ∨ fst (fs.promises.readFile (path_of (slug (params props))) w) = Return "" →
  fst (metadata_of props w) = Throw NEXT_NOT_FOUND
  ∧ fst (page_of props (snd (metadata_of props w))) = Throw NEXT_NOT_FOUND
  ∧ fst (page_of props w) = Throw NEXT_NOT_FOUND
  ∧ fst (metadata_of props (snd (page_of props w))) = Throw NEXT_NOT_FOUND.
Proof.
  intros Hread.
  assert (Hfile : match file_at (disk w) (path_of (slug (params props))) with
                  | inr text => JsString.truthy text = false
                  | inl _ => True
                  end).
  { rewrite readFile_run in Hread. cbn [fst] in Hread.
    destruct (file_at _ _) as [|text]; [done |].
    destruct Hread as [[e [=]] | [= ->]]. done. }
  assert (Hany : ∀ w', disk w' = disk w →
            fst (metadata_of props w') = Throw NEXT_NOT_FOUND
            ∧ fst (page_of props w') = Throw NEXT_NOT_FOUND).
  { intros w' Hdisk.
    rewrite generateMetadata_run, BlogPage_run, getPostMeta_run, getPost_run.
    cbn [fst]. rewrite Hdisk.
    destruct (file_at _ _) as [|text]; [done |]. by rewrite Hfile. }
  split; [by apply Hany |]. split; [| split; [by apply Hany |]].
  - apply Hany. by rewrite generateMetadata_run.
  - apply Hany. by rewrite BlogPage_run.
Qed.

(** X10 — Every readable, non-empty [name.md] entry of the posts folder,
    with no further [.md] and no slash in [name], gets a page:
    [generateStaticParams] resolves to one entry of
    parameters per directory entry, the one with slug [name] among them,
    and [BlogPage] on those parameters resolves to the post made of that
    file (given that its front-matter parses and its body converts). *)
Theorem static_params_are_found
    (store : list string) (es : list (string * node)) (name text html : string)
    (parsed : GrayMatterFile) (w : world) :
  locate (disk w) POSTS = inr store →
  find (disk w) store = inr (Dir es) →
  entry (name +:+ ".md") es = Some (File text) →
  JsString.includes ".md" name = false →
  JsString.includes "/" name = false →
  text ≠ "" →
  matter text = inr parsed →
  fst (process pipeline (content parsed) w) = Return html →
  ∃ ps,
    fst (static_params w) = Return ps
    ∧ length ps = length es
    ∧ {| params := {| slug := name |} |} ∈ ps
    ∧ fst (page_of {| params := {| slug := name |} |} w)
      = Return (Post_element html (data parsed)).
Proof.
  intros Hdir Hstore Hentry Hmd Hslash Htext Hparsed Hhtml.
  destruct (file_at_child (disk w) POSTS name store es Hdir Hstore Hslash)
    as [Hfile _].
  rewrite Hentry in Hfile.
  exists (map (λ s, {| params := {| slug := s |} |})
            (map (JsString.replace ".md" "") (map fst es))).
  split; [| split; [| split]].
  - unfold generateStaticParams, bind.
    by rewrite getPostSlugs_run, (names_at_store _ _ store es).
  - by rewrite !length_map.
  - as_fmap. apply list_elem_of_fmap. exists name. split; [done |].
    apply list_elem_of_fmap. exists (name +:+ ".md").
    split; [by rewrite replace_md_extension |].
    by apply entry_Some_elem with (File text).
  - rewrite BlogPage_run, getPost_run. cbn [fst params slug].
    unfold post_path. rewrite Hfile, truthy_nonempty, Hparsed by done.
    by rewrite Hhtml.
Qed.

(** X11 — The pages, like the queries under them, only read: each leaves
    the disk as it found it, however it settles, and adds nothing but
    [readdir] and [readFile] calls to the trace. *)
Theorem pages_only_read (props : BlogPageProps) (w : world) :
  reads_only w (snd (metadata_of props w)) ∧
  reads_only w (snd (static_params w)) ∧
  reads_only w (snd (page_of props w)) ∧
  reads_only w (snd (index_page w)).
Proof.
  split; [| split; [| split]].
  - rewrite generateMetadata_run. by apply log_reads_only.
  - unfold generateStaticParams, bind. rewrite getPostSlugs_run.
    destruct (names_at _ _); by apply log_reads_only.
  - rewrite BlogPage_run. by apply log_reads_only.
  - unfold IndexPage, bind. rewrite getPostList_run.
    destruct (names_at _ _) as [e|files]; [by apply log_reads_only |].
    cbn zeta. destruct (settle_all _); (split; [done |]);
      (eexists; split; [done |]);
      (apply Forall_cons; split; [done |]);
      by apply Forall_map, Forall_true.
Qed.

End Queries.

(** ** The sample installation at work *)

Local Abbreviation sample_path := (post_path sample_cwd sample_resolve).
Local Abbreviation sample_content := (getPostContent sample_cwd sample_resolve).
Local Abbreviation sample_slugs := (getPostSlugs sample_cwd sample_resolve).
Local Abbreviation sample_meta :=
  (getPostMeta sample_cwd sample_resolve sample_matter).
Local Abbreviation sample_list :=
  (getPostList sample_cwd sample_resolve sample_matter).
Local Abbreviation sample_pipeline :=
  (markdown_processor sample_parse sample_extension sample_extension
     sample_rehype sample_stringify).
Local Abbreviation sample_post :=
  (getPost sample_cwd sample_resolve sample_matter sample_parse
     sample_extension sample_extension sample_rehype sample_stringify).

(** Writing is what changes the disk; the queries never do. *)
Example writeFile_changes_disk :
  disk (snd (fs.promises.writeFile "/app/_posts/new.md" "text" empty_site))
  ≠ disk empty_site.
Proof. by vm_compute. Qed.

Example getPost_hello :
  fst (sample_post {| slug := "hello" |} tidy_site)
  = Return {| postHTML := "<p>there</p>";
              postMeta := {[ "title" := VStr "Hello" ]} |}.
Proof. by vm_compute. Qed.

(** A locked file reads as an absent post. *)
Lemma getPostMeta_read_failure_absent_witness :
  fst (fs.promises.readFile (sample_path "locked") tidy_site) = Throw EACCES
  ∧ fst (sample_meta "locked" tidy_site) = Return None.
Proof.
  split; [reflexivity |].
  apply (getPostMeta_read_failure_absent _ _ _ "locked" tidy_site EACCES).
  reflexivity.
Defined.

(** [renamed.md] declares [slug: other]. *)
Lemma getPostMeta_front_matter_slug_wins_witness :
  ∃ meta : object,
    fst (sample_meta "renamed" cluttered_site) = Return (Some meta)
    ∧ meta !! "slug" = Some (VStr "other").
Proof.
  apply (getPostMeta_front_matter_slug_wins sample_cwd sample_resolve
           sample_matter "renamed" renamed_md
           {| data := {[ "slug" := VStr "other" ]}; content := "moved" |}).
  - reflexivity.
  - discriminate.
  - reflexivity.
  - reflexivity.
Defined.

(** The slug [../secret] reads [/app/secret.md]. *)
Lemma getPostContent_path_unchecked_witness :
  locate (disk tidy_site) (sample_path "../secret") = inr ["app"; "secret.md"]
  ∧ ¬ ["app"; "_posts"] `prefix_of` ["app"; "secret.md"]
  ∧ fst (sample_content "../secret" tidy_site) = Return (Some "not a post").
Proof.
  apply (proj2 (getPostContent_path_unchecked sample_cwd sample_resolve
                  "hello" tidy_site)
           "secret" "not a post" ["app"; "_posts"]
           [("hello.md", File hello_md); ("locked.md", Locked)]).
  - reflexivity.
  - reflexivity.
  - discriminate.
  - reflexivity.
  - reflexivity.
Defined.

(** [hello.md] through the five stages. *)
Lemma markdown_processor_stages_witness :
  sample_pipeline
  = [sample_parse; sample_extension; sample_extension; sample_rehype;
     sample_stringify]
  ∧ fst (process sample_pipeline "there" tidy_site) = Return "<p>there</p>"
  ∧ fst (sample_post {| slug := "hello" |} tidy_site)
    = Return {| postHTML := "<p>there</p>";
                postMeta := {[ "title" := VStr "Hello" ]} |}.
Proof.
  destruct (markdown_processor_stages sample_cwd sample_resolve sample_matter
              sample_parse sample_extension sample_extension sample_rehype
              sample_stringify {| slug := "hello" |} hello_md
              {| data := {[ "title" := VStr "Hello" ]}; content := "there" |}
              tidy_site)
    as (Hstages & Hprocess & Hpost).
  - reflexivity.
  - discriminate.
  - reflexivity.
  - split; [exact Hstages |]. split; [exact (Hprocess "there") | exact Hpost].
Defined.

(** A store of [name.md] entries only. *)
Lemma getPostSlugs_one_per_entry_witness :
  ∃ slugs,
    fst (sample_slugs tidy_site) = Return slugs
    ∧ (∀ s, s ∈ slugs ↔ s +:+ ".md" ∈ ["hello.md"; "locked.md"])
    ∧ NoDup slugs.
Proof.
  destruct (getPostSlugs_one_per_entry sample_cwd sample_resolve
              ["hello.md"; "locked.md"] tidy_site eq_refl)
    as (slugs & Hrun & _ & Htidy).
  exists slugs. split; [exact Hrun |].
  destruct Htidy as [Hset Hnd].
  - intros file Hin.
    apply elem_of_cons in Hin as [-> | Hin]; [by exists "hello" |].
    apply elem_of_cons in Hin as [-> | Hin]; [by exists "locked" |].
    by apply elem_of_nil in Hin.
  - split; [exact Hset | apply Hnd].
    apply NoDup_cons. split; [| apply NoDup_singleton].
    intros Hin. apply list_elem_of_singleton in Hin. discriminate.
Defined.

(** The locked file of the tidy store is left out; the broken file of the
    broken store makes the listing reject. *)
Lemma getPostList_read_failure_absorbed_parse_failure_rejects_witness :
  (∃ metas,
      Forall2 (λ s m,
          fst (sample_meta s tidy_site) = Return m ∧
          ((∃ e, fst (fs.promises.readFile (sample_path s) tidy_site) = Throw e) →
           m = None))
        ["hello"; "locked"] metas
      ∧ fst (sample_list tidy_site) = Return (omap id metas))
  ∧ (∃ e' s' text',
        fst (sample_list broken_site) = Throw e' ∧
        s' ∈ ["hello"; "broken"] ∧
        fst (fs.promises.readFile (sample_path s') broken_site) = Return text' ∧
        sample_matter text' = inl e').
Proof.
  split.
  - apply (proj1 (getPostList_read_failure_absorbed_parse_failure_rejects
                    sample_cwd sample_resolve sample_matter
                    ["hello.md"; "locked.md"] tidy_site eq_refl)).
    intros s text Hin Hread _.
    apply elem_of_cons in Hin as [-> | Hin].
    { injection Hread as <-. by eexists. }
    apply elem_of_cons in Hin as [-> | Hin]; [discriminate Hread |].
    by apply elem_of_nil in Hin.
  - apply (proj2 (getPostList_read_failure_absorbed_parse_failure_rejects
                    sample_cwd sample_resolve sample_matter
                    ["hello.md"; "broken.md"] broken_site eq_refl)
             "broken" broken_md
             (YAMLException "unexpected end of the stream within a flow collection")).
    + right. left.
    + reflexivity.
    + discriminate.
    + reflexivity.
Defined.

Lemma getPostList_maps_getPostMeta_witness :
  let hello : object := {[ "title" := VStr "Hello" ]} ∪ {[ "slug" := VStr "hello" ]} in
  fst (sample_list tidy_site) = Return [hello]
  ∧ length [hello] = 2 - 1
  ∧ hello !! "slug" = Some (VStr "hello").
Proof.
  intros hello.
  destruct (getPostList_maps_getPostMeta sample_cwd sample_resolve sample_matter
              ["hello"; "locked"] [Some hello; None] tidy_site)
    as (Hrun & Hlen & Hposts & _).
  - reflexivity.
  - apply Forall2_cons. split; [reflexivity |].
    apply Forall2_cons. split; [reflexivity | apply Forall2_nil_2].
  - split; [exact Hrun |]. split; [exact Hlen |]. reflexivity.
Defined.

(** ** Where the code departs from the specification *)

(** C1 — One file with a front-matter block that does not parse, and the
    whole listing rejects with the parser's error. *)
Lemma getPostList_broken_front_matter_rejects :
  fst (sample_slugs broken_site) = Return ["hello"; "broken"]
  ∧ fst (fs.promises.readFile (sample_path "broken") broken_site)
    = Return broken_md
  ∧ sample_matter broken_md
    = inl (YAMLException "unexpected end of the stream within a flow collection")
  ∧ fst (sample_list broken_site)
    = Throw (YAMLException "unexpected end of the stream within a flow collection")
  ∧ ¬ ∃ posts, fst (sample_list broken_site) = Return posts.
Proof.
  repeat (split; [reflexivity |]). by intros [posts Hposts].
Qed.

(** C2 — Entries that are not [.md] files come back as slugs, and a
    directory named like a post gives the post's slug a second time. *)
Lemma getPostSlugs_cluttered_store :
  fst (fs.promises.readdir (POSTS_FOLDER sample_cwd sample_resolve) cluttered_site)
  = Return ["hello.md"; "hello"; "drafts"; "renamed.md"]
  ∧ fst (sample_slugs cluttered_site)
    = Return ["hello"; "hello"; "drafts"; "renamed"]
  ∧ ¬ NoDup ["hello"; "hello"; "drafts"; "renamed"]
  ∧ ¬ ("drafts" ∈ ["hello"; "hello"; "drafts"; "renamed"]
       ↔ "drafts" +:+ ".md" ∈ ["hello.md"; "hello"; "drafts"; "renamed.md"]).
Proof.
  repeat (split; [reflexivity |]). split.
  - intros Hnd. apply NoDup_cons in Hnd as [Hin _]. apply Hin. left.
  - intros [Hin _].
    assert (Hd : "drafts" ∈ ["hello"; "hello"; "drafts"; "renamed"])
      by (do 2 right; left).
    apply Hin in Hd.
    repeat (apply elem_of_cons in Hd as [Hd | Hd]; [discriminate Hd |]).
    by apply elem_of_nil in Hd.
Qed.

(** C4 — The same store, listed: two elements share the slug [hello], and
    the element of [renamed.md] carries the slug [other], which is not one
    of the slugs. *)
Lemma getPostList_cluttered_store :
  let hello : object := {[ "title" := VStr "Hello" ]} ∪ {[ "slug" := VStr "hello" ]} in
  let renamed : object := {[ "slug" := VStr "other" ]} ∪ {[ "slug" := VStr "renamed" ]} in
  fst (sample_slugs cluttered_site) = Return ["hello"; "hello"; "drafts"; "renamed"]
  ∧ fst (sample_list cluttered_site) = Return [hello; hello; renamed]
  ∧ ¬ NoDup (map (λ post : object, post !! "slug") [hello; hello; renamed])
  ∧ renamed !! "slug" = Some (VStr "other")
  ∧ "other" ∉ ["hello"; "hello"; "drafts"; "renamed"].
Proof.
  intros hello renamed.
  repeat (split; [reflexivity |]). split; [| split; [reflexivity |]].
  - intros Hnd. apply NoDup_cons in Hnd as [Hin _]. apply Hin. left.
  - intros Hin.
    repeat (apply elem_of_cons in Hin as [Hin | Hin]; [discriminate Hin |]).
    by apply elem_of_nil in Hin.
Qed.

(** C5 — The file is there and can be read, it is only empty; [getPost]
    signals not-found all the same, so it neither found the file absent nor
    returned a post. *)
Lemma getPost_empty_file_not_found :
  fst (fs.promises.readFile (sample_path "empty") empty_site) = Return ""
  ∧ fst (sample_post {| slug := "empty" |} empty_site) = Throw NEXT_NOT_FOUND
  ∧ ¬ ((∃ e, fst (fs.promises.readFile (sample_path "empty") empty_site) = Throw e)
       ∨ (∃ post, fst (sample_post {| slug := "empty" |} empty_site) = Return post)).
Proof.
  repeat (split; [reflexivity |]). by intros [[e He] | [post Hpost]].
Qed.


(** ** The further properties on the sample installation *)

Local Abbreviation sample_static_params :=
  (generateStaticParams sample_cwd sample_resolve).
Local Abbreviation sample_page :=
  (BlogPage sample_cwd sample_resolve sample_matter sample_parse
     sample_extension sample_extension sample_rehype sample_stringify).
Local Abbreviation sample_index :=
  (IndexPage sample_cwd sample_resolve sample_matter).

(** Without a posts folder nothing is listed. *)
Lemma store_unreadable_rejects_witness :
  fst (sample_slugs bare_site) = Throw ENOENT
  ∧ sample_list bare_site = (Throw ENOENT, log (ReadDir "/app/_posts") bare_site)
  ∧ fst (sample_static_params bare_site) = Throw ENOENT
  ∧ fst (sample_index bare_site) = Throw ENOENT.
Proof.
  apply (store_unreadable_rejects sample_cwd sample_resolve sample_matter
           ENOENT bare_site).
  reflexivity.
Defined.


Lemma listed_post_is_read_back_witness :
  (∃ slugs, fst (sample_slugs tidy_site) = Return slugs ∧ "hello" ∈ slugs)
  ∧ locate (disk tidy_site) (sample_path "hello")
    = inr ["app"; "_posts"; "hello.md"]
  ∧ fst (sample_content "hello" tidy_site) = Return (Some hello_md).
Proof.
  apply (listed_post_is_read_back sample_cwd sample_resolve ["app"; "_posts"]
           [("hello.md", File hello_md); ("locked.md", Locked)]
           "hello" hello_md tidy_site);
    reflexivity.
Defined.

(** The directory [drafts] of the cluttered store. *)
Lemma stray_entry_is_left_out_witness :
  let hello : object := {[ "title" := VStr "Hello" ]} ∪ {[ "slug" := VStr "hello" ]} in
  let renamed : object := {[ "slug" := VStr "other" ]} ∪ {[ "slug" := VStr "renamed" ]} in
  fst (sample_slugs cluttered_site) = Return ["hello"; "hello"; "drafts"; "renamed"]
  ∧ fst (fs.promises.readFile (sample_path "drafts") cluttered_site)
    = Throw ENOENT
  ∧ fst (sample_meta "drafts" cluttered_site) = Return None
  ∧ fst (sample_list cluttered_site) = Return [hello; hello; renamed].
Proof.
  intros hello renamed.
  apply (stray_entry_is_left_out sample_cwd sample_resolve sample_matter
           ["app"; "_posts"]
           [("hello.md", File hello_md); ("hello", Dir [])]
           [("renamed.md", File renamed_md)]
           "drafts" (Dir []) [Some hello; Some hello] [Some renamed]
           cluttered_site);
    try reflexivity.
  - apply Forall2_cons. split; [reflexivity |].
    apply Forall2_cons. split; [reflexivity | apply Forall2_nil_2].
  - apply Forall2_cons. split; [reflexivity | apply Forall2_nil_2].
Defined.

(** The empty file of the empty store. *)
Lemma metadata_and_page_agree_on_not_found_witness :
  fst (generateMetadata sample_cwd sample_resolve sample_matter
         {| params := {| slug := "empty" |} |} empty_site)
  = Throw NEXT_NOT_FOUND
  ∧ fst (sample_page {| params := {| slug := "empty" |} |}
           (snd (generateMetadata sample_cwd sample_resolve sample_matter
                   {| params := {| slug := "empty" |} |} empty_site)))
    = Throw NEXT_NOT_FOUND.
Proof.
  destruct (metadata_and_page_agree_on_not_found sample_cwd sample_resolve
              sample_matter sample_parse sample_extension sample_extension
              sample_rehype sample_stringify
              {| params := {| slug := "empty" |} |} empty_site)
    as (Hmeta & Hpage & _).
  - right. reflexivity.
  - split; [exact Hmeta | exact Hpage].
Defined.

(** The broken store: the read of [broken.md] is made although the listing
    rejects. *)
Lemma getPostList_reads_every_entry_witness :
  trace (snd (sample_list broken_site))
  = [ReadDir "/app/_posts"; ReadFile "/app/_posts/hello.md";
     ReadFile "/app/_posts/broken.md"].
Proof.
  rewrite (getPostList_reads_every_entry sample_cwd sample_resolve sample_matter
             ["hello.md"; "broken.md"] broken_site eq_refl).
  reflexivity.
Defined.

Lemma getPostSlugs_removes_first_md_witness :
  ∃ slugs,
    fst (sample_slugs cluttered_site) = Return slugs ∧ length slugs = 4.
Proof.
  destruct (getPostSlugs_removes_first_md sample_cwd sample_resolve
              ["hello.md"; "hello"; "drafts"; "renamed.md"] cluttered_site
              eq_refl)
    as (slugs & Hrun & Heach).
  exists slugs. split; [exact Hrun |].
  symmetry. exact (Forall2_length _ _ _ Heach).
Defined.

Lemma getPostList_tidy_store_witness :
  ∃ posts, fst (sample_list two_posts_site) = Return posts ∧ length posts = 2.
Proof.
  destruct (getPostList_tidy_store sample_cwd sample_resolve sample_matter
              ["app"; "_posts"]
              [("hello.md", File hello_md); ("plain.md", File "just text")]
              two_posts_site)
    as (posts & Hrun & Heach).
  - reflexivity.
  - reflexivity.
  - apply NoDup_cons. split; [| apply NoDup_singleton].
    intros Hin. apply list_elem_of_singleton in Hin. discriminate.
  - apply Forall_cons. split.
    { exists "hello", hello_md,
        {| data := {[ "title" := VStr "Hello" ]}; content := "there" |}.
      repeat split; try reflexivity. discriminate. }
    apply Forall_cons. split; [| apply Forall_nil_2].
    exists "plain", "just text", {| data := ∅; content := "just text" |}.
    repeat split; try reflexivity. discriminate.
  - exists posts. split; [exact Hrun |].
    symmetry. exact (Forall2_length _ _ _ Heach).
Defined.

Lemma static_params_are_found_witness :
  ∃ ps,
    fst (sample_static_params tidy_site) = Return ps
    ∧ length ps = 2
    ∧ {| params := {| slug := "hello" |} |} ∈ ps
    ∧ fst (sample_page {| params := {| slug := "hello" |} |} tidy_site)
      = Return (Post_element "<p>there</p>" {[ "title" := VStr "Hello" ]}).
Proof.
  destruct (static_params_are_found sample_cwd sample_resolve sample_matter
              sample_parse sample_extension sample_extension sample_rehype
              sample_stringify ["app"; "_posts"]
              [("hello.md", File hello_md); ("locked.md", Locked)]
              "hello" hello_md "<p>there</p>"
              {| data := {[ "title" := VStr "Hello" ]}; content := "there" |}
              tidy_site)
    as (ps & Hrun & Hlen & Hin & Hpage); try reflexivity; [discriminate |].
  exists ps. split; [exact Hrun |]. split; [exact Hlen |].
  split; [exact Hin | exact Hpage].
Defined.

(** A post without [excerpt]: the description is [undefined]. *)
Example generateMetadata_hello :
  fst (generateMetadata sample_cwd sample_resolve sample_matter
         {| params := {| slug := "hello" |} |} tidy_site)
  = Return {| title := Some (VStr "Hello"); description := None;
              openGraph := {| OpenGraph.title := Some (VStr "Hello");
                              OpenGraph.description := None |} |}.
Proof. by vm_compute. Qed.
